(** * BrotliCompress command line tool: a shallow embedding

    Source: BaseTools/Source/Python/BrotliCompress/brotli.py.

    The tool drives an external Brotli engine (the [_brotli] extension
    module).  The engine is not part of the tool, so it is a parameter of
    the development: a record of functions, with every call the tool makes
    to it written to a log.  Python exceptions are values of [exn], the
    file system is a finite map from paths to contents, and the functions
    of brotli.py are computations in a state-and-exception monad.

    The first part holds the definitions, in the order of the source; the
    second part holds the lemmas and theorems. *)

From Equations Require Import Equations.
From Equations.Prop Require Import Logic.
From Stdlib Require Import ZArith Lia List Bool.
From Stdlib Require Import Strings.Byte.
From stdpp Require Import gmap strings list.

Local Open Scope Z_scope.

(** ** Python values *)

Abbreviation bytes := (list byte).

(** [len(x)] *)
Definition len {A : Type} (l : list A) : Z := Z.of_nat (length l).

(** [x[a:b]] for indices [0 <= a <= b]; a bound past the end stops at the
    end, as in Python. *)
Definition slice {A : Type} (l : list A) (a b : Z) : list A :=
  take (Z.to_nat (b - a)) (drop (Z.to_nat a) l).

(** The exceptions the tool meets.  [BrotliError] is [_brotli.error],
    [SystemExit] is what argparse's [exit] and [error] raise, with the
    text they print; [Exception] stands for any other exception. *)
Inductive exn : Type :=
| BrotliError (detail : string)
| OverflowError
| SystemExit (status : Z) (message : string)
| Exception (name : string).

Inductive result (A : Type) : Type :=
| Return (a : A)
| Raise (e : exn).
Arguments Return {A} a.
Arguments Raise {A} e.

(** [str(e)] *)
Definition str (e : exn) : string :=
  match e with
  | BrotliError detail => detail
  | OverflowError => "int too big to convert"
  | SystemExit _ message => message
  | Exception name => name
  end.

(** ** Module constants (brotli.py, lines 20-27) *)

Definition BROTLI_DEFAULT_LGWIN : Z := 22.
Definition BROTLI_MIN_WINDOW_BITS : Z := 10.
Definition BROTLI_MAX_WINDOW_BITS : Z := 24.
Definition BROTLI_WINDOW_GAP : Z := 16.
Definition BROTLI_DEFAULT_LGBLOCK : Z := 0.
Definition BROTLI_DEFAULT_QUALITY : Z := 9.
Definition DECODE_HEADER_SIZE : Z := 0x10.

(** ** calc_lgwin (lines 29-36) *)

(** [lambda w: (1 << w) - BROTLI_WINDOW_GAP] *)
Definition max_backward_limit (w : Z) : Z := Z.shiftl 1 w - BROTLI_WINDOW_GAP.

(** The [while] loop of [calc_lgwin], from the current value of [lgwin].
    It terminates because [lgwin] climbs towards
    [BROTLI_MAX_WINDOW_BITS]. *)
Equations? calc_lgwin_loop (datalen lgwin : Z) : Z
  by wf (Z.to_nat (BROTLI_MAX_WINDOW_BITS - lgwin)) lt :=
  calc_lgwin_loop datalen lgwin
    with inspect ((max_backward_limit lgwin <? datalen)
                  && (lgwin <? BROTLI_MAX_WINDOW_BITS)) => {
    | exist _ true Hcond => calc_lgwin_loop datalen (lgwin + 1);
    | exist _ false _ => lgwin }.
Proof.
  apply andb_prop in Hcond as [_ Hlt%Z.ltb_lt].
  unfold BROTLI_MAX_WINDOW_BITS in *. lia.
Qed.

Definition calc_lgwin (datalen : Z) : Z :=
  calc_lgwin_loop datalen BROTLI_MIN_WINDOW_BITS.

(** ** int.to_bytes and int.from_bytes *)

Inductive byteorder : Type := little | big.

(** The byte whose value is [z mod 256]. *)
Definition byte_of_Z (z : Z) : byte :=
  match Byte.of_N (Z.to_N (z mod 256)) with
  | Some b => b
  | None => x00
  end.

Definition Z_of_byte (b : byte) : Z := Z.of_N (Byte.to_N b).

(** The [length] least significant base-256 digits of [n], lowest first. *)
Fixpoint le_digits (n : Z) (length : nat) : bytes :=
  match length with
  | O => []
  | S k => byte_of_Z n :: le_digits (n / 256) k
  end.

(** [int.to_bytes(n, length, byteorder)] with the default [signed=False],
    for a [length] that is not negative: OverflowError for a negative [n]
    and for one that does not fit in [length] bytes. *)
Definition int_to_bytes (n length : Z) (order : byteorder) : result bytes :=
  if (n <? 0) || (256 ^ length <=? n) then Raise OverflowError
  else
    let digits := le_digits n (Z.to_nat length) in
    Return (match order with little => digits | big => rev digits end).

(** [int.from_bytes(b, 'little')]: the number a little-endian byte string
    stands for. *)
Fixpoint int_from_bytes_little (b : bytes) : Z :=
  match b with
  | [] => 0
  | d :: rest => Z_of_byte d + 256 * int_from_bytes_little rest
  end.

(** ** The external engine

    What brotli.py uses of the [_brotli] module: the [Compressor] class
    with its [process] and [finish] methods, the [decompress] function,
    the [MODE_GENERIC] constant and [__version__].  A compressor object
    carries state from [process] to [finish]; the state after [process]
    is returned beside the output. *)

Inductive brotli_mode : Type := MODE_GENERIC | MODE_TEXT | MODE_FONT.

Record Engine : Type := {
  compressor : Type;
  engine_version : string;
  engine_Compressor : brotli_mode -> Z -> Z -> Z -> result compressor;
  engine_process : compressor -> bytes -> result (bytes * compressor);
  engine_finish : compressor -> result bytes;
  engine_decompress : bytes -> result bytes;
}.

(** A call of the tool into the engine, with its arguments. *)
Inductive engine_call : Type :=
| CallCompressor (mode : brotli_mode) (quality lgwin lgblock : Z)
| CallProcess (data : bytes)
| CallFinish
| CallDecompress (data : bytes).

(** ** The world and the monad

    [files] maps the path of every regular file to its contents; [calls]
    is the log of engine calls, oldest first. *)

Record world : Type := {
  files : gmap string bytes;
  calls : list engine_call;
}.

Definition M (A : Type) : Type := world -> result A * world.

Definition ret {A : Type} (a : A) : M A := fun w => (Return a, w).

Definition raise {A : Type} (e : exn) : M A := fun w => (Raise e, w).

Definition bind {A B : Type} (m : M A) (k : A -> M B) : M B :=
  fun w =>
    match m w with
    | (Return a, w') => k a w'
    | (Raise e, w') => (Raise e, w')
    end.

(** A pure computation that may raise. *)
Definition lift {A : Type} (r : result A) : M A := fun w => (r, w).

(** [try: body  except _brotli.error as e: handler(e)]: only a
    [BrotliError] reaches the handler. *)
Definition try_except_brotli_error {A : Type}
    (body : M A) (handler : exn -> M A) : M A :=
  fun w =>
    match body w with
    | (Raise (BrotliError detail), w') => handler (BrotliError detail) w'
    | other => other
    end.

Declare Scope py_scope.
Delimit Scope py_scope with py.
Notation "x <- m ;; k" := (bind m (fun x => k))
  (at level 100, m at next level, k at level 200, right associativity)
  : py_scope.
Notation "m ;; k" := (bind m (fun _ => k))
  (at level 100, k at level 200, right associativity) : py_scope.

Definition log_call (c : engine_call) : M unit :=
  fun w => (Return tt, {| files := files w; calls := calls w ++ [c] |}).

(** ** The command line

    A command line as argparse reads it, one entry per argument, in the
    order given; the operand of an option with [type=int] is the integer
    it was converted to. *)

Inductive arg : Type :=
| Flag_help                 (* -h, --help, added by argparse itself *)
| Flag_version              (* -v, --version *)
| Flag_compress             (* -e, --compress *)
| Flag_decompress           (* -d, --decompress *)
| Positional (s : string)   (* input_file *)
| Opt_output (s : string)   (* -o, --output *)
| Opt_quality (n : Z)       (* -q, --quality *)
| Opt_gap (n : Z)           (* -g, --gap *)
| Opt_lgwin (n : Z)         (* -lw, --lgwin *)
| Opt_lgblock (n : Z)       (* -lb, --lgblock *)
| Flag_backward.            (* -b, --backward *)

(** The namespace [parse_args] returns ([options] in [main]); [None] is
    Python's [None]. *)
Record Namespace : Type := {
  opt_compress : bool;
  opt_decompress : bool;
  infile : option string;
  output : option string;
  quality : Z;
  gap : Z;
  lgwin : option Z;
  lgblock : Z;
  backward : bool;
}.

Definition set_compress (v : bool) (ns : Namespace) : Namespace :=
  {| opt_compress := v; opt_decompress := opt_decompress ns;
     infile := infile ns; output := output ns; quality := quality ns;
     gap := gap ns; lgwin := lgwin ns; lgblock := lgblock ns;
     backward := backward ns |}.

Definition set_decompress (v : bool) (ns : Namespace) : Namespace :=
  {| opt_compress := opt_compress ns; opt_decompress := v;
     infile := infile ns; output := output ns; quality := quality ns;
     gap := gap ns; lgwin := lgwin ns; lgblock := lgblock ns;
     backward := backward ns |}.

Definition set_infile (v : string) (ns : Namespace) : Namespace :=
  {| opt_compress := opt_compress ns; opt_decompress := opt_decompress ns;
     infile := Some v; output := output ns; quality := quality ns;
     gap := gap ns; lgwin := lgwin ns; lgblock := lgblock ns;
     backward := backward ns |}.

Definition set_output (v : string) (ns : Namespace) : Namespace :=
  {| opt_compress := opt_compress ns; opt_decompress := opt_decompress ns;
     infile := infile ns; output := Some v; quality := quality ns;
     gap := gap ns; lgwin := lgwin ns; lgblock := lgblock ns;
     backward := backward ns |}.

Definition set_quality (v : Z) (ns : Namespace) : Namespace :=
  {| opt_compress := opt_compress ns; opt_decompress := opt_decompress ns;
     infile := infile ns; output := output ns; quality := v;
     gap := gap ns; lgwin := lgwin ns; lgblock := lgblock ns;
     backward := backward ns |}.

Definition set_gap (v : Z) (ns : Namespace) : Namespace :=
  {| opt_compress := opt_compress ns; opt_decompress := opt_decompress ns;
     infile := infile ns; output := output ns; quality := quality ns;
     gap := v; lgwin := lgwin ns; lgblock := lgblock ns;
     backward := backward ns |}.

Definition set_lgwin (v : Z) (ns : Namespace) : Namespace :=
  {| opt_compress := opt_compress ns; opt_decompress := opt_decompress ns;
     infile := infile ns; output := output ns; quality := quality ns;
     gap := gap ns; lgwin := Some v; lgblock := lgblock ns;
     backward := backward ns |}.

Definition set_lgblock (v : Z) (ns : Namespace) : Namespace :=
  {| opt_compress := opt_compress ns; opt_decompress := opt_decompress ns;
     infile := infile ns; output := output ns; quality := quality ns;
     gap := gap ns; lgwin := lgwin ns; lgblock := v;
     backward := backward ns |}.

Definition set_backward (v : bool) (ns : Namespace) : Namespace :=
  {| opt_compress := opt_compress ns; opt_decompress := opt_decompress ns;
     infile := infile ns; output := output ns; quality := quality ns;
     gap := gap ns; lgwin := lgwin ns; lgblock := lgblock ns;
     backward := v |}.

(** [range(a, b)] *)
Definition range (a b : Z) : list Z :=
  map (fun i => a + Z.of_nat i) (seq 0 (Z.to_nat (b - a))).

(** What [setup_parser] configures: the description, the version string
    and, for each integer option, its [choices] and [default].  The
    parser is built with argparse's default [add_help=True], so it also
    knows -h/--help. *)
Record ArgumentParser : Type := {
  description : string;
  version : string;
  quality_choices : list Z;
  quality_default : Z;
  gap_choices : list Z;
  gap_default : Z;
  lgwin_choices : list Z;
  lgblock_choices : list Z;
  lgblock_default : Z;
  backward_default : bool;
}.

(** [parser.exit(status, message)] and [parser.error(message)]: the
    message goes to standard error ([error] puts the usage line before
    it, left out here) and the process exits, [error] with status 2. *)
Definition exit_ {A : Type} (status : Z) (message : string) : result A :=
  Raise (SystemExit status message).

Definition error_ {A : Type} (message : string) : result A :=
  exit_ 2 message.

(** [parser.format_help()]: the usage line, the description and the help
    of each argument; of these the description is kept. *)
Definition format_help (parser : ArgumentParser) : string :=
  description parser.

(** The namespace before any argument is read: every [default]. *)
Definition defaults (parser : ArgumentParser) : Namespace :=
  {| opt_compress := false; opt_decompress := false;
     infile := None; output := None;
     quality := quality_default parser; gap := gap_default parser;
     lgwin := None; lgblock := lgblock_default parser;
     backward := backward_default parser |}.

(** An operand outside an option's [choices] is an error. *)
Definition check_value (choices : list Z) (n : Z) (option_name : string)
    : result unit :=
  if decide (n ∈ choices) then Return tt
  else error_ ("argument " +:+ option_name +:+ ": invalid choice").

(** argparse takes the arguments one at a time, left to right: the
    help and version actions print and exit at once with status 0, a
    flag of the mutually exclusive group is refused once the other was
    seen, an operand is checked against the choices, the first
    positional is [infile] and any further one is kept as unrecognised. *)
Fixpoint consume (parser : ArgumentParser) (args : list arg)
    (ns : Namespace) (extras : list string)
    : result (Namespace * list string) :=
  match args with
  | [] => Return (ns, extras)
  | a :: rest =>
    match a with
    | Flag_help => exit_ 0 (format_help parser)
    | Flag_version => exit_ 0 (version parser)
    | Flag_compress =>
      if opt_decompress ns
      then error_ "argument -e/--compress: not allowed with argument -d/--decompress"
      else consume parser rest (set_compress true ns) extras
    | Flag_decompress =>
      if opt_compress ns
      then error_ "argument -d/--decompress: not allowed with argument -e/--compress"
      else consume parser rest (set_decompress true ns) extras
    | Positional s =>
      match infile ns with
      | None => consume parser rest (set_infile s ns) extras
      | Some _ => consume parser rest ns (extras ++ [s])
      end
    | Opt_output s => consume parser rest (set_output s ns) extras
    | Opt_quality n =>
      match check_value (quality_choices parser) n "-q/--quality" with
      | Return _ => consume parser rest (set_quality n ns) extras
      | Raise e => Raise e
      end
    | Opt_gap n =>
      match check_value (gap_choices parser) n "-g/--gap" with
      | Return _ => consume parser rest (set_gap n ns) extras
      | Raise e => Raise e
      end
    | Opt_lgwin n =>
      match check_value (lgwin_choices parser) n "-lw/--lgwin" with
      | Return _ => consume parser rest (set_lgwin n ns) extras
      | Raise e => Raise e
      end
    | Opt_lgblock n =>
      match check_value (lgblock_choices parser) n "-lb/--lgblock" with
      | Return _ => consume parser rest (set_lgblock n ns) extras
      | Raise e => Raise e
      end
    | Flag_backward => consume parser rest (set_backward true ns) extras
    end
  end.

(** [parser.parse_args(args)]: after the last argument the required ones
    ([infile], [--output], one flag of the group) must have been given
    and nothing may be left unrecognised. *)
Definition parse_args (parser : ArgumentParser) (args : list arg)
    : result Namespace :=
  match consume parser args (defaults parser) [] with
  | Raise e => Raise e
  | Return (ns, extras) =>
    match infile ns, output ns with
    | Some _, Some _ =>
      if negb (opt_compress ns || opt_decompress ns)
      then error_ "one of the arguments -e/--compress -d/--decompress is required"
      else
        match extras with
        | [] => Return ns
        | _ :: _ => error_ "unrecognized arguments"
        end
    | _, _ => error_ "the following arguments are required"
    end
  end.

(** ** Files

    [os.path.isfile], [open(path, 'rb').read()], [open(path, 'wb')] (the
    file is created, or emptied when it exists, as soon as it is opened),
    [write] and [close] on the file opened for writing. *)

Definition os_path_isfile (path : string) : M bool :=
  fun w => (Return (bool_decide (is_Some (files w !! path))), w).

Definition read_file (path : string) : M bytes :=
  fun w =>
    match files w !! path with
    | Some content => (Return content, w)
    | None => (Raise (Exception "FileNotFoundError"), w)
    end.

Definition open_wb (path : string) : M string :=
  fun w => (Return path, {| files := <[path := []]> (files w);
                            calls := calls w |}).

Definition file_write (handle : string) (data : bytes) : M unit :=
  fun w =>
    (Return tt,
     {| files := <[handle := default [] (files w !! handle) ++ data]> (files w);
        calls := calls w |}).

Definition file_close (handle : string) : M unit := ret tt.

Section Tool.

Context (_brotli : Engine).

Local Open Scope py_scope.

(** The engine's operations as the tool calls them: the call is logged,
    then the engine answers. *)

Definition brotli_Compressor (mode : brotli_mode) (quality lgwin lgblock : Z)
    : M (compressor _brotli) :=
  log_call (CallCompressor mode quality lgwin lgblock) ;;
  lift (engine_Compressor _brotli mode quality lgwin lgblock).

Definition compressor_process (c : compressor _brotli) (data : bytes)
    : M (bytes * compressor _brotli) :=
  log_call (CallProcess data) ;;
  lift (engine_process _brotli c data).

Definition compressor_finish (c : compressor _brotli) : M bytes :=
  log_call CallFinish ;;
  lift (engine_finish _brotli c).

Definition brotli_decompress (data : bytes) : M bytes :=
  log_call (CallDecompress data) ;;
  lift (engine_decompress _brotli data).

(** ** compress (lines 38-48) *)

Definition compress (data : bytes) (quality lgwin lgblock : Z)
    (mode : brotli_mode) (backward : bool) : M bytes :=
  compressor <- brotli_Compressor mode quality lgwin lgblock ;;
  processed <- compressor_process compressor data ;;
  let '(processed, compressor) := processed in
  finished <- compressor_finish compressor ;;
  let output := processed ++ finished in
  if backward then
    input_len_arr <- lift (int_to_bytes (len data) DECODE_HEADER_SIZE little) ;;
    ret (input_len_arr ++ output)
  else ret output.

(** [compress(data)], every keyword parameter left at the default of the
    signature. *)
Definition compress_defaults (data : bytes) : M bytes :=
  compress data BROTLI_DEFAULT_QUALITY BROTLI_DEFAULT_LGWIN
    BROTLI_DEFAULT_LGBLOCK MODE_GENERIC false.

(** ** decompress (lines 50-59) *)

Definition decompress (data : bytes) : M bytes :=
  try_except_brotli_error
    (brotli_decompress data)
    (fun e =>
       (* Backward compatibility: try to extract the extra header *)
       if DECODE_HEADER_SIZE <? len data then
         let data := slice data DECODE_HEADER_SIZE (len data) in
         brotli_decompress data
       else raise e).

(** ** setup_parser (lines 61-152) *)

Definition setup_parser : ArgumentParser :=
  {| description :=
       "Compression/decompression tool using the Brotli algorithm.";
     version := engine_version _brotli;
     quality_choices := range 0 12;
     quality_default := BROTLI_DEFAULT_QUALITY;
     gap_choices := range 1 17;
     gap_default := 1;
     lgwin_choices := range 10 25;
     lgblock_choices := [0] ++ range 16 25;
     lgblock_default := 0;
     backward_default := false |}.

(** ** main (lines 154-176)

    [options.lgwin = calc_lgwin(len(data))] is the local [lgwin]: the
    namespace is not read again after the call of [compress]. *)

Definition main (args : list arg) : M unit :=
  let parser := setup_parser in
  options <- lift (parse_args parser args) ;;
  match infile options, output options with
  | Some options_infile, Some options_output =>
    isfile <- os_path_isfile options_infile ;;
    (if negb isfile
     then lift (error_ ("File " +:+ options_infile +:+ " not found"))
     else ret tt) ;;
    data <- read_file options_infile ;;
    outfile <- open_wb options_output ;;
    data <- try_except_brotli_error
      (if opt_compress options then
         let lgwin :=
           match lgwin options with
           | None => calc_lgwin (len data)
           | Some lgwin => lgwin
           end in
         compress data (quality options) lgwin (lgblock options)
                  MODE_GENERIC (backward options)
       else decompress data)
      (fun e =>
         lift (exit_ 1 ("brotli error: " +:+ str e +:+ ": "
                        +:+ options_infile))) ;;
    file_write outfile data ;;
    file_close outfile
  | _, _ => raise (Exception "TypeError")
  end.

End Tool.

(** ** Vocabulary of the statements *)

(** An exponent [w] is admissible for a payload of [datalen] bytes when it
    is in range and its window, less the gap, holds the payload. *)
Definition fits (datalen w : Z) : Prop :=
  10 <= w <= 24 /\ datalen <= Z.shiftl 1 w - 16.

(** The world [w] after the engine calls [cs]; the files are untouched. *)
Definition after_calls (w : world) (cs : list engine_call) : world :=
  {| files := files w; calls := calls w ++ cs |}.

(** The world once the output file has been opened for writing. *)
Definition output_opened (options_output : string) (w : world) : world :=
  {| files := <[options_output := []]> (files w); calls := calls w |}.

(** What [main] asks of the engine once the input is read: the [try]
    block of lines 164-171. *)
Definition engine_step (E : Engine) (options : Namespace) (data : bytes)
    : M bytes :=
  if opt_compress options then
    compress E data (quality options)
      (match lgwin options with
       | None => calc_lgwin (len data)
       | Some lgwin => lgwin
       end)
      (lgblock options) MODE_GENERIC (backward options)
  else decompress E data.

(** The body the engine produces for a payload: the output of [process]
    followed by the output of [finish]. *)
Definition engine_body (E : Engine) (mode : brotli_mode)
    (quality lgwin lgblock : Z) (data : bytes) : result bytes :=
  match engine_Compressor E mode quality lgwin lgblock with
  | Raise e => Raise e
  | Return c =>
    match engine_process E c data with
    | Raise e => Raise e
    | Return (processed, c') =>
      match engine_finish E c' with
      | Raise e => Raise e
      | Return finished => Return (processed ++ finished)
      end
    end
  end.

(** The contract of the engine that the round trip relies on:
    [decompress] inverts the body, and fails with a decode error on any
    16-byte header followed by a body. *)
Definition engine_contract (E : Engine) : Prop :=
  forall mode quality lgwin lgblock data body,
    engine_body E mode quality lgwin lgblock data = Return body ->
    engine_decompress E body = Return data
    /\ forall header, length header = 16%nat ->
         exists detail,
           engine_decompress E (header ++ body) = Raise (BrotliError detail).

(** The command line asks for the help text or for the version: the two
    actions that end the run with status 0. *)
Definition asks_information (args : list arg) : Prop :=
  In Flag_help args \/ In Flag_version args.


(** Two arguments that are the same, or are both --gap with a value the
    parser accepts. *)
Inductive same_but_gap : arg -> arg -> Prop :=
| same_arg (a : arg) : same_but_gap a a
| other_gap (g1 g2 : Z) :
    1 <= g1 <= 16 -> 1 <= g2 <= 16 -> same_but_gap (Opt_gap g1) (Opt_gap g2).

(** A namespace with its [gap] blotted out. *)
Definition forget_gap (ns : Namespace) : Namespace := set_gap 0 ns.

(** What the parser guarantees of every value it stores: each integer is
    one of its option's [choices], and the two flags of the mutually
    exclusive group are never both set. *)
Definition in_ranges (ns : Namespace) : Prop :=
  0 <= quality ns <= 11
  /\ 1 <= gap ns <= 16
  /\ (forall l, lgwin ns = Some l -> 10 <= l <= 24)
  /\ (lgblock ns = 0 \/ 16 <= lgblock ns <= 24)
  /\ opt_compress ns && opt_decompress ns = false.

(** A namespace as [main] expects it: values in range, both paths given,
    and exactly one of compress and decompress chosen. *)
Definition valid_options (ns : Namespace) : Prop :=
  in_ranges ns
  /\ is_Some (infile ns)
  /\ is_Some (output ns)
  /\ opt_compress ns = negb (opt_decompress ns).

(** An engine call whose arguments, when it is a constructor call, are
    within the ranges of the command line, with the generic mode. *)
Definition valid_call (c : engine_call) : Prop :=
  match c with
  | CallCompressor mode quality lgwin lgblock =>
    mode = MODE_GENERIC
    /\ 0 <= quality <= 11
    /\ 10 <= lgwin <= 24
    /\ (lgblock = 0 \/ 16 <= lgblock <= 24)
  | _ => True
  end.

(** The exceptions that are [_brotli.error]. *)
Definition is_brotli_error (e : exn) : bool :=
  match e with
  | BrotliError _ => true
  | _ => false
  end.

(** ** A test double for the engine

    A deterministic stand-in for the engine, used to run the tool on
    concrete inputs: the compressed form of a payload repeats every byte
    three times, [process] emits it and [finish] has nothing left to
    flush; [decompress] undoes it and refuses everything else.  The
    constructor accepts any parameters. *)

Module Triplicate.

Definition encode (data : bytes) : bytes :=
  flat_map (fun b => [b; b; b]) data.

Fixpoint decode (data : bytes) : result bytes :=
  match data with
  | [] => Return []
  | a :: b :: c :: rest =>
    if Byte.eqb a b && Byte.eqb b c then
      match decode rest with
      | Return out => Return (a :: out)
      | Raise e => Raise e
      end
    else Raise (BrotliError "corrupt input")
  | _ => Raise (BrotliError "truncated input")
  end.

Definition engine : Engine :=
  {| compressor := unit;
     engine_version := "1.0.9";
     engine_Compressor := fun _ _ _ _ => Return tt;
     engine_process := fun c data => Return (encode data, c);
     engine_finish := fun _ => Return [];
     engine_decompress := decode |}.

(** The same engine with a constructor that refuses parameters out of
    range, as an engine that checks its own arguments would. *)
Definition valid_parameters (quality lgwin lgblock : Z) : bool :=
  (0 <=? quality) && (quality <=? 11)
  && (10 <=? lgwin) && (lgwin <=? 24)
  && ((lgblock =? 0) || ((16 <=? lgblock) && (lgblock <=? 24))).

Definition strict_engine : Engine :=
  {| compressor := unit;
     engine_version := "1.0.9";
     engine_Compressor := fun _ quality lgwin lgblock =>
       if valid_parameters quality lgwin lgblock then Return tt
       else Raise (BrotliError "invalid parameter");
     engine_process := fun c data => Return (encode data, c);
     engine_finish := fun _ => Return [];
     engine_decompress := decode |}.

End Triplicate.

(** A world with no file and no engine call yet. *)
Definition empty_world : world := {| files := ∅; calls := [] |}.

(** Seventeen bytes that are no compressed stream, with or without their
    first sixteen. *)
Definition seventeen_bytes : bytes :=
  [x01; x02; x03; x04; x05; x06; x07; x08;
   x09; x0a; x0b; x0c; x0d; x0e; x0f; x10; x11].

(** A world with an input file that is no compressed stream and an output
    file left by an earlier run. *)
Definition garbage_world : world :=
  {| files := {[ "in" := [x01]; "out" := [x41] ]}; calls := [] |}.

(** A world with a two-byte input file and no output file. *)
Definition payload_world : world :=
  {| files := {[ "in" := [x41; x42] ]}; calls := [] |}.


(** The namespace of a command line that gives the mode, the two paths
    and, at most, --backward and --lgwin. *)
Definition sample_options (compress_mode backward_flag : bool)
    (given : option Z) (input out : string) : Namespace :=
  {| opt_compress := compress_mode; opt_decompress := negb compress_mode;
     infile := Some input; output := Some out;
     quality := 9; gap := 1; lgwin := given; lgblock := 0;
     backward := backward_flag |}.


(** * Lemmas and theorems *)

(** ** The definitions at work *)

Example calc_lgwin_0 : calc_lgwin 0 = 10.
Proof. reflexivity. Qed.
Example calc_lgwin_2000 : calc_lgwin 2000 = 11.
Proof. vm_compute. reflexivity. Qed.

Example int_to_bytes_1000 :
  int_to_bytes 1000 DECODE_HEADER_SIZE little
  = Return [xe8; x03; x00; x00; x00; x00; x00; x00;
            x00; x00; x00; x00; x00; x00; x00; x00].
Proof. reflexivity. Qed.

Example decompress_triplicate :
  fst (decompress Triplicate.engine [x41; x41; x41; x42; x42; x42] empty_world)
  = Return [x41; x42].
Proof. reflexivity. Qed.

(** ** Window size estimator *)

(** What the loop computes from any starting point at or below the
    ceiling: it stops at the first exponent that is large enough, or at
    the ceiling. *)
Lemma calc_lgwin_loop_spec (datalen start : Z) :
  start <= BROTLI_MAX_WINDOW_BITS ->
  let r := calc_lgwin_loop datalen start in
  start <= r <= BROTLI_MAX_WINDOW_BITS
  /\ (r = BROTLI_MAX_WINDOW_BITS \/ datalen <= max_backward_limit r)
  /\ (forall w, start <= w < r -> max_backward_limit w < datalen).
Proof.
  funelim (calc_lgwin_loop datalen start).
  - intros Hle. cbn zeta.
    match goal with
    | Hc : _ && _ = true |- _ =>
        pose proof Hc as Hc'; apply andb_prop in Hc' as [Hsmall Hlt]
    end.
    apply Z.ltb_lt in Hsmall, Hlt.
    match goal with
    | IH : _ -> let _ := _ in _ |- _ => specialize (IH ltac:(lia)); cbn zeta in IH;
        destruct IH as (Hr & Hstop & Hmin)
    | IH : _ -> _ /\ _ |- _ => specialize (IH ltac:(lia));
        destruct IH as (Hr & Hstop & Hmin)
    end.
    split; [lia | split; [exact Hstop |]].
    intros w Hw.
    match type of Hw with
    | ?s <= _ < _ => destruct (Z.eq_dec w s) as [->|Hne]; [exact Hsmall|]
    end.
    apply Hmin. lia.
  - intros Hle. cbn zeta. split; [lia | split; [| intros w Hw; lia]].
    match goal with
    | Hc : _ && _ = false |- _ =>
        pose proof Hc as Hc'; apply andb_false_iff in Hc' as [Hfit | Hceil]
    end.
    + apply Z.ltb_ge in Hfit. right. lia.
    + apply Z.ltb_ge in Hceil. left. lia.
Qed.

(** C5: for every non-negative [datalen], [calc_lgwin] returns the
    smallest exponent [w] in [10, 24] with [(1 << w) - 16 >= datalen], and
    24 when there is none; the result is always in [10, 24], it is 10 for
    0 and 24 for 2^30. *)
Theorem calc_lgwin_smallest_exponent (datalen : Z) :
  0 <= datalen ->
  10 <= calc_lgwin datalen <= 24
  /\ ((exists w, fits datalen w) ->
      fits datalen (calc_lgwin datalen)
      /\ forall w, fits datalen w -> calc_lgwin datalen <= w)
  /\ ((forall w, ~ fits datalen w) -> calc_lgwin datalen = 24)
  /\ calc_lgwin 0 = 10
  /\ calc_lgwin (2 ^ 30) = 24.
Proof.
  intros _.
  pose proof (calc_lgwin_loop_spec datalen BROTLI_MIN_WINDOW_BITS) as Hspec.
  cbn zeta in Hspec. fold (calc_lgwin datalen) in Hspec.
  unfold BROTLI_MIN_WINDOW_BITS, BROTLI_MAX_WINDOW_BITS in Hspec.
  destruct (Hspec ltac:(lia)) as (Hrange & Hstop & Hmin). clear Hspec.
  assert (Hfit : forall w, fits datalen w -> calc_lgwin datalen <= w).
  { intros w [Hw Hlen]. destruct (Z_le_gt_dec (calc_lgwin datalen) w) as [|Hgt];
      [assumption|].
    specialize (Hmin w ltac:(lia)). unfold max_backward_limit, BROTLI_WINDOW_GAP in Hmin.
    lia. }
  split; [exact Hrange|]. split; [|split; [|split]].
  - intros [w Hw]. split; [|exact Hfit].
    split; [exact Hrange|].
    destruct Hstop as [Hceil | Hok].
    + pose proof (Hfit w Hw) as Hle. destruct Hw as [Hw Hlen].
      assert (w = 24) as -> by lia. rewrite Hceil. exact Hlen.
    + exact Hok.
  - intros Hnone. destruct Hstop as [Hceil | Hok]; [exact Hceil|].
    exfalso. apply (Hnone (calc_lgwin datalen)). split; assumption.
  - reflexivity.
  - vm_compute. reflexivity.
Qed.

Lemma calc_lgwin_smallest_exponent_witness :
  10 <= calc_lgwin 2000 <= 24.
Proof.
  exact (proj1 (calc_lgwin_smallest_exponent 2000 ltac:(lia))).
Defined.

(** The estimate grows with the payload. *)
Lemma calc_lgwin_monotone (n1 n2 : Z) :
  n1 <= n2 -> calc_lgwin n1 <= calc_lgwin n2.
Proof.
  intros Hle.
  pose proof (calc_lgwin_loop_spec n1 BROTLI_MIN_WINDOW_BITS) as H1.
  pose proof (calc_lgwin_loop_spec n2 BROTLI_MIN_WINDOW_BITS) as H2.
  cbn zeta in H1, H2.
  fold (calc_lgwin n1) in H1. fold (calc_lgwin n2) in H2.
  unfold BROTLI_MIN_WINDOW_BITS, BROTLI_MAX_WINDOW_BITS in H1, H2.
  destruct (H1 ltac:(lia)) as (Hr1 & _ & Hmin1).
  destruct (H2 ltac:(lia)) as (Hr2 & Hstop2 & _).
  destruct (Z_le_gt_dec (calc_lgwin n1) (calc_lgwin n2)) as [|Hgt];
    [assumption|].
  specialize (Hmin1 (calc_lgwin n2) ltac:(lia)).
  destruct Hstop2 as [Hceil|Hok]; lia.
Qed.

Lemma calc_lgwin_monotone_witness : calc_lgwin 1000 <= calc_lgwin 5000.
Proof. apply calc_lgwin_monotone. lia. Defined.

Lemma calc_lgwin_range (n : Z) : 10 <= calc_lgwin n <= 24.
Proof.
  pose proof (calc_lgwin_loop_spec n BROTLI_MIN_WINDOW_BITS) as Hspec.
  cbn zeta in Hspec. fold (calc_lgwin n) in Hspec.
  unfold BROTLI_MIN_WINDOW_BITS, BROTLI_MAX_WINDOW_BITS in Hspec.
  apply Hspec. lia.
Qed.

Lemma max_backward_limit_pow (w : Z) :
  0 <= w -> max_backward_limit w = 2 ^ w - 16.
Proof.
  intros Hw. unfold max_backward_limit, BROTLI_WINDOW_GAP.
  rewrite Z.shiftl_1_l. reflexivity.
Qed.

(** The estimate in closed form: [w] is returned exactly for the payload
    lengths above the capacity of [w - 1] and within the capacity of [w],
    with no lower bound for 10 and no upper bound for 24. *)
Lemma calc_lgwin_thresholds (n w : Z) :
  10 <= w <= 24 ->
  calc_lgwin n = w
  <-> (w = 10 \/ 2 ^ (w - 1) - 16 < n) /\ (w = 24 \/ n <= 2 ^ w - 16).
Proof.
  intros Hw.
  pose proof (calc_lgwin_loop_spec n BROTLI_MIN_WINDOW_BITS) as Hspec.
  cbn zeta in Hspec. fold (calc_lgwin n) in Hspec.
  unfold BROTLI_MIN_WINDOW_BITS, BROTLI_MAX_WINDOW_BITS in Hspec.
  destruct (Hspec ltac:(lia)) as (Hr & Hstop & Hmin). clear Hspec.
  split.
  - intros <-. split.
    + destruct (Z.eq_dec (calc_lgwin n) 10) as [|Hne]; [left; assumption|].
      right. specialize (Hmin (calc_lgwin n - 1) ltac:(lia)).
      rewrite max_backward_limit_pow in Hmin by lia. exact Hmin.
    + destruct Hstop as [|Hok]; [left; assumption|].
      right. rewrite max_backward_limit_pow in Hok by lia. exact Hok.
  - intros [Hlow Hhigh].
    destruct (Z.lt_trichotomy (calc_lgwin n) w) as [Hlt|[Heq|Hgt]];
      [exfalso | exact Heq | exfalso].
    + destruct Hstop as [|Hok]; [lia|].
      rewrite max_backward_limit_pow in Hok by lia.
      destruct Hlow as [|Hlow]; [lia|].
      pose proof (Z.pow_le_mono_r 2 (calc_lgwin n) (w - 1)
                    ltac:(lia) ltac:(lia)) as Hpow.
      lia.
    + specialize (Hmin w ltac:(lia)).
      rewrite max_backward_limit_pow in Hmin by lia.
      destruct Hhigh as [|Hhigh]; lia.
Qed.

Lemma calc_lgwin_thresholds_witness :
  calc_lgwin 1009 = 11
  <-> (11 = 10 \/ 2 ^ (11 - 1) - 16 < 1009)
      /\ (11 = 24 \/ 1009 <= 2 ^ 11 - 16).
Proof. apply calc_lgwin_thresholds. lia. Defined.

(** ** The header bytes *)

Lemma Z_of_byte_of_Z (z : Z) : Z_of_byte (byte_of_Z z) = z mod 256.
Proof.
  unfold Z_of_byte, byte_of_Z.
  pose proof (Z.mod_pos_bound z 256 ltac:(lia)) as Hb.
  destruct (Byte.of_N (Z.to_N (z mod 256))) as [b|] eqn:Hof.
  - apply Byte.to_of_N in Hof. rewrite Hof. lia.
  - apply Byte.of_N_None_iff in Hof. lia.
Qed.

Lemma le_digits_length (n : Z) (k : nat) : length (le_digits n k) = k.
Proof.
  revert n. induction k as [|k IH]; intros n; simpl; [reflexivity|].
  rewrite IH. reflexivity.
Qed.

(** Reading the digits back gives the number, up to what [k] bytes hold. *)
Lemma int_from_bytes_le_digits (n : Z) (k : nat) :
  int_from_bytes_little (le_digits n k) = n mod 256 ^ Z.of_nat k.
Proof.
  revert n. induction k as [|k IH]; intros n.
  - simpl. rewrite Z.mod_1_r. reflexivity.
  - cbn [le_digits int_from_bytes_little].
    rewrite IH, Z_of_byte_of_Z, Nat2Z.inj_succ, Z.pow_succ_r by lia.
    rewrite Z.rem_mul_r by lia. reflexivity.
Qed.

Lemma int_to_bytes_little_length (n size : Z) (encoded : bytes) :
  int_to_bytes n size little = Return encoded ->
  length encoded = Z.to_nat size.
Proof.
  unfold int_to_bytes.
  destruct ((n <? 0) || (256 ^ size <=? n)); [discriminate|].
  intros [= <-]. apply le_digits_length.
Qed.

Lemma int_to_bytes_fits (n size : Z) :
  0 <= n < 256 ^ size ->
  int_to_bytes n size little = Return (le_digits n (Z.to_nat size)).
Proof.
  intros [Hlo Hhi]. unfold int_to_bytes.
  destruct (n <? 0) eqn:Hneg; [apply Z.ltb_lt in Hneg; lia|].
  destruct (256 ^ size <=? n) eqn:Hbig; [apply Z.leb_le in Hbig; lia|].
  reflexivity.
Qed.

Lemma int_to_bytes_overflow (n size : Z) (order : byteorder) :
  256 ^ size <= n -> int_to_bytes n size order = Raise OverflowError.
Proof.
  intros Hbig. unfold int_to_bytes.
  apply Z.leb_le in Hbig. rewrite Hbig, orb_true_r. reflexivity.
Qed.

(** A length below 2^128 is encoded on 16 bytes that read back as the
    length. *)
Lemma header_of_length (n : Z) :
  0 <= n < 2 ^ 128 ->
  exists header,
    int_to_bytes n DECODE_HEADER_SIZE little = Return header
    /\ length header = 16%nat
    /\ int_from_bytes_little header = n.
Proof.
  intros Hn. eexists. split; [apply int_to_bytes_fits; exact Hn|].
  split; [apply le_digits_length|].
  rewrite int_from_bytes_le_digits. apply Z.mod_small. exact Hn.
Qed.

(** ** Engine calls and slices *)

Lemma after_calls_app (w : world) (cs cs' : list engine_call) :
  after_calls (after_calls w cs) cs' = after_calls w (cs ++ cs').
Proof. unfold after_calls. simpl. rewrite app_assoc. reflexivity. Qed.

Lemma after_calls_nil (w : world) : after_calls w [] = w.
Proof. destruct w. unfold after_calls. simpl. rewrite app_nil_r. reflexivity. Qed.

Lemma slice_to_end {A : Type} (l : list A) (a : Z) :
  0 <= a -> slice l a (len l) = drop (Z.to_nat a) l.
Proof.
  intros Ha. unfold slice, len. apply take_ge.
  rewrite length_drop. lia.
Qed.

Section Orchestrators.

Context (_brotli : Engine).

Lemma brotli_decompress_run (data : bytes) (w : world) :
  brotli_decompress _brotli data w
  = (engine_decompress _brotli data, after_calls w [CallDecompress data]).
Proof. reflexivity. Qed.

(** [decompress], one engine answer at a time. *)
Lemma decompress_run (data : bytes) (w : world) :
  decompress _brotli data w
  = match engine_decompress _brotli data with
    | Raise (BrotliError detail) =>
      if 16 <? len data then
        (engine_decompress _brotli (drop 16 data),
         after_calls w [CallDecompress data; CallDecompress (drop 16 data)])
      else (Raise (BrotliError detail), after_calls w [CallDecompress data])
    | other => (other, after_calls w [CallDecompress data])
    end.
Proof.
  unfold decompress, try_except_brotli_error.
  rewrite brotli_decompress_run.
  destruct (engine_decompress _brotli data) as [out|[detail| |status message|name]];
    try reflexivity.
  unfold DECODE_HEADER_SIZE.
  destruct (16 <? len data) eqn:Hlen; [|reflexivity].
  rewrite slice_to_end by lia.
  rewrite brotli_decompress_run, after_calls_app. reflexivity.
Qed.

(** C2: [decompress] first asks the engine to decompress [data] as it
    is.  When, and only when, that fails with a decode error and [data]
    is longer than 16 bytes, it drops the first 16 bytes unread, asks the
    engine once more for the remainder and returns what the second call
    returns.  In every other case the first answer is final. *)
Theorem decompress_direct_then_stripped (data : bytes) (w : world) :
  match engine_decompress _brotli data with
  | Return out =>
      decompress _brotli data w
      = (Return out, after_calls w [CallDecompress data])
  | Raise (BrotliError detail) =>
      if 16 <? len data then
        exists header remainder,
          data = header ++ remainder /\ length header = 16%nat
          /\ decompress _brotli data w
             = (engine_decompress _brotli remainder,
                after_calls w [CallDecompress data; CallDecompress remainder])
      else
        decompress _brotli data w
        = (Raise (BrotliError detail), after_calls w [CallDecompress data])
  | Raise e =>
      decompress _brotli data w = (Raise e, after_calls w [CallDecompress data])
  end.
Proof.
  rewrite decompress_run.
  destruct (engine_decompress _brotli data) as [out|[detail| |status message|name]];
    try reflexivity.
  destruct (16 <? len data) eqn:Hlen; [|reflexivity].
  exists (take 16 data), (drop 16 data).
  split; [symmetry; apply take_drop|]. split; [|reflexivity].
  apply Z.ltb_lt in Hlen. unfold len in Hlen.
  rewrite length_take. lia.
Qed.

(** C3 (amended): when the direct attempt fails with a decode error and
    [data] has at most 16 bytes, that first error is what [decompress]
    raises; when [data] is longer, the answer of [decompress] is the
    answer of the second call, so a second failure is raised as it is,
    in place of the first one. *)
Theorem decompress_terminal_error (data : bytes) (detail : string) (w : world) :
  engine_decompress _brotli data = Raise (BrotliError detail) ->
  if len data <=? 16 then
    fst (decompress _brotli data w) = Raise (BrotliError detail)
  else
    fst (decompress _brotli data w) = engine_decompress _brotli (drop 16 data).
Proof.
  intros Hfirst. rewrite decompress_run, Hfirst.
  rewrite Z.leb_antisym.
  destruct (16 <? len data); reflexivity.
Qed.

(** [compress], one engine answer at a time. *)
Lemma compress_run (data : bytes) (quality lgwin lgblock : Z)
    (mode : brotli_mode) (backward : bool) (w : world) :
  compress _brotli data quality lgwin lgblock mode backward w
  = let constructed := CallCompressor mode quality lgwin lgblock in
    match engine_Compressor _brotli mode quality lgwin lgblock with
    | Raise e => (Raise e, after_calls w [constructed])
    | Return c =>
      match engine_process _brotli c data with
      | Raise e => (Raise e, after_calls w [constructed; CallProcess data])
      | Return (processed, c') =>
        (match engine_finish _brotli c' with
         | Raise e => Raise e
         | Return finished =>
           if backward then
             match int_to_bytes (len data) DECODE_HEADER_SIZE little with
             | Return input_len_arr =>
               Return (input_len_arr ++ processed ++ finished)
             | Raise e => Raise e
             end
           else Return (processed ++ finished)
         end,
         after_calls w [constructed; CallProcess data; CallFinish])
      end
    end.
Proof.
  unfold compress, brotli_Compressor, compressor_process, compressor_finish.
  unfold bind, lift, log_call, ret, after_calls. cbn.
  destruct (engine_Compressor _brotli mode quality lgwin lgblock) as [c|e];
    [|reflexivity].
  destruct (engine_process _brotli c data) as [[processed c']|e]; cbn;
    [|rewrite <- app_assoc; reflexivity].
  rewrite <- !app_assoc. cbn.
  destruct (engine_finish _brotli c') as [finished|e]; [|reflexivity].
  destruct backward; [|reflexivity].
  destruct (int_to_bytes (len data) DECODE_HEADER_SIZE little); reflexivity.
Qed.

(** C6: for [data] shorter than 2^128 bytes and an engine that answers
    every call, [compress] with the legacy flag returns the 16-byte
    little-endian encoding of [len(data)] followed by the compressed body
    ([process]'s output, then [finish]'s); without the flag it returns the
    body alone. *)
Theorem compress_output_layout (data : bytes) (quality lgwin lgblock : Z)
    (mode : brotli_mode) (c c' : compressor _brotli)
    (processed finished : bytes) (w : world) :
  len data < 2 ^ 128 ->
  engine_Compressor _brotli mode quality lgwin lgblock = Return c ->
  engine_process _brotli c data = Return (processed, c') ->
  engine_finish _brotli c' = Return finished ->
  (exists header,
     fst (compress _brotli data quality lgwin lgblock mode true w)
     = Return (header ++ (processed ++ finished))
     /\ length header = 16%nat
     /\ int_from_bytes_little header = len data)
  /\ fst (compress _brotli data quality lgwin lgblock mode false w)
     = Return (processed ++ finished).
Proof.
  intros Hlen Hnew Hprocess Hfinish.
  rewrite !compress_run. cbn zeta. rewrite Hnew, Hprocess, Hfinish. cbn [fst].
  split; [|reflexivity].
  destruct (header_of_length (len data)) as (header & Henc & Hlength & Hvalue).
  { unfold len in *. lia. }
  exists header. rewrite Henc. auto.
Qed.

(** C9: [compress] with the legacy flag encodes [len data] on 16 bytes
    after the engine has answered.  A length of 2^128 or more does not
    fit: [compress] raises OverflowError, it returns no output with a
    wrapped or cut length.  A length below 2^128 gives a header of
    exactly 16 bytes, which reads back as the length, in front of the
    body. *)
Theorem header_encoding_overflow (data : bytes) (quality lgwin lgblock : Z)
    (mode : brotli_mode) (c c' : compressor _brotli)
    (processed finished : bytes) (w : world) :
  engine_Compressor _brotli mode quality lgwin lgblock = Return c ->
  engine_process _brotli c data = Return (processed, c') ->
  engine_finish _brotli c' = Return finished ->
  (2 ^ 128 <= len data ->
   fst (compress _brotli data quality lgwin lgblock mode true w)
   = Raise OverflowError)
  /\ (len data < 2 ^ 128 ->
      exists header,
        int_to_bytes (len data) DECODE_HEADER_SIZE little = Return header
        /\ length header = 16%nat
        /\ int_from_bytes_little header = len data
        /\ fst (compress _brotli data quality lgwin lgblock mode true w)
           = Return (header ++ processed ++ finished)).
Proof.
  intros Hnew Hprocess Hfinish.
  rewrite compress_run. cbn zeta. rewrite Hnew, Hprocess, Hfinish. cbn [fst].
  split.
  - intros Hbig. rewrite int_to_bytes_overflow; [reflexivity | exact Hbig].
  - intros Hsmall.
    destruct (header_of_length (len data))
      as (header & Henc & Hlength & Hvalue).
    { unfold len in *. lia. }
    exists header. rewrite Henc. auto.
Qed.

(** C1 (amended): when the engine answers the three calls of [compress]
    with a body that is not empty, decompresses that body to [b] and
    refuses the body with the header in front with a decode error, then
    decompressing what [compress] returns with the legacy flag gives [b]
    back.  The length of [b] fits the header. *)
Theorem roundtrip_legacy_header (b : bytes) (quality lgwin lgblock : Z)
    (mode : brotli_mode) (c c' : compressor _brotli)
    (processed finished header : bytes) (detail : string) (w : world) :
  engine_Compressor _brotli mode quality lgwin lgblock = Return c ->
  engine_process _brotli c b = Return (processed, c') ->
  engine_finish _brotli c' = Return finished ->
  int_to_bytes (len b) DECODE_HEADER_SIZE little = Return header ->
  engine_decompress _brotli (processed ++ finished) = Return b ->
  engine_decompress _brotli (header ++ processed ++ finished)
  = Raise (BrotliError detail) ->
  processed ++ finished <> [] ->
  exists w1 w2,
    compress _brotli b quality lgwin lgblock mode true w
    = (Return (header ++ processed ++ finished), w1)
    /\ decompress _brotli (header ++ processed ++ finished) w1 = (Return b, w2).
Proof.
  intros Hnew Hprocess Hfinish Hheader Hbody Hprefixed Hnonempty.
  pose proof (int_to_bytes_little_length _ _ _ Hheader) as Hlength.
  change (Z.to_nat DECODE_HEADER_SIZE) with 16%nat in Hlength.
  do 2 eexists. split.
  - rewrite compress_run. cbn zeta. rewrite Hnew, Hprocess, Hfinish, Hheader.
    reflexivity.
  - rewrite decompress_run, Hprefixed.
    assert (Hlong : (16 <? len (header ++ processed ++ finished)) = true).
    { apply Z.ltb_lt. unfold len. rewrite length_app, Hlength.
      destruct (processed ++ finished); [congruence|]. simpl. lia. }
    rewrite Hlong.
    replace (drop 16 (header ++ processed ++ finished))
      with (processed ++ finished).
    + rewrite Hbody. reflexivity.
    + rewrite drop_app_length'; [reflexivity | symmetry; exact Hlength].
Qed.

(** The calls of [compress]: the constructor first, with the parameters
    as given, then [process] and [finish] at most. *)
Lemma compress_calls (data : bytes) (quality lgwin lgblock : Z)
    (mode : brotli_mode) (backward : bool) (w : world) :
  exists rest,
    snd (compress _brotli data quality lgwin lgblock mode backward w)
    = after_calls w (CallCompressor mode quality lgwin lgblock :: rest)
    /\ Forall (fun c => c = CallProcess data \/ c = CallFinish) rest.
Proof.
  rewrite compress_run. cbn zeta.
  destruct (engine_Compressor _ _ _ _ _) as [c|e].
  - destruct (engine_process _ c data) as [[processed c']|e];
      eexists; (split; [reflexivity|]);
      repeat (apply List.Forall_cons; [solve [auto]|]); apply List.Forall_nil.
  - exists []. split; [reflexivity|apply List.Forall_nil].
Qed.

(** Called with the defaults of its signature, [compress] hands the
    engine the fixed exponent [BROTLI_DEFAULT_LGWIN], whatever the length
    of the payload: the estimate is [main]'s doing. *)
Lemma compress_defaults_lgwin (data : bytes) (w : world) :
  exists rest,
    calls (snd (compress_defaults _brotli data w))
    = calls w ++ CallCompressor MODE_GENERIC 9 22 0 :: rest.
Proof.
  unfold compress_defaults.
  destruct (compress_calls data BROTLI_DEFAULT_QUALITY BROTLI_DEFAULT_LGWIN
              BROTLI_DEFAULT_LGBLOCK MODE_GENERIC false w)
    as (rest & Hworld & _).
  exists rest. rewrite Hworld. reflexivity.
Qed.

(** Without the legacy header the round trip needs the engine to invert
    its own body, and nothing else. *)
Lemma roundtrip_without_header (b : bytes) (quality lgwin lgblock : Z)
    (mode : brotli_mode) (c c' : compressor _brotli)
    (processed finished : bytes) (w : world) :
  engine_Compressor _brotli mode quality lgwin lgblock = Return c ->
  engine_process _brotli c b = Return (processed, c') ->
  engine_finish _brotli c' = Return finished ->
  engine_decompress _brotli (processed ++ finished) = Return b ->
  exists w1 w2,
    compress _brotli b quality lgwin lgblock mode false w
    = (Return (processed ++ finished), w1)
    /\ decompress _brotli (processed ++ finished) w1 = (Return b, w2).
Proof.
  intros Hnew Hprocess Hfinish Hbody.
  do 2 eexists. split.
  - rewrite compress_run. cbn zeta. rewrite Hnew, Hprocess, Hfinish.
    reflexivity.
  - rewrite decompress_run, Hbody. reflexivity.
Qed.

(** The legacy flag changes the output of [compress] by the 16-byte
    prefix and nothing else: the engine calls are the same, an engine
    error is the same, and what follows the prefix is the output without
    the flag. *)
Lemma backward_only_adds_header (data : bytes) (quality lgwin lgblock : Z)
    (mode : brotli_mode) (w : world) :
  len data < 2 ^ 128 ->
  snd (compress _brotli data quality lgwin lgblock mode true w)
  = snd (compress _brotli data quality lgwin lgblock mode false w)
  /\ match fst (compress _brotli data quality lgwin lgblock mode false w) with
     | Return body =>
       exists header,
         fst (compress _brotli data quality lgwin lgblock mode true w)
         = Return (header ++ body)
         /\ length header = 16%nat
         /\ int_from_bytes_little header = len data
     | Raise e =>
       fst (compress _brotli data quality lgwin lgblock mode true w) = Raise e
     end.
Proof.
  intros Hlen. rewrite !compress_run. cbn zeta.
  destruct (engine_Compressor _ _ _ _ _) as [c|e]; [|split; reflexivity].
  destruct (engine_process _ c data) as [[processed c']|e];
    [|split; reflexivity].
  cbn [fst snd]. split; [reflexivity|].
  destruct (engine_finish _ c') as [finished|e]; [|reflexivity].
  destruct (header_of_length (len data)) as (header & Henc & Hlength & Hvalue).
  { unfold len in *. lia. }
  exists header. rewrite Henc. auto.
Qed.

(** An engine failure ends [compress] on the spot: the exception of the
    failing call is raised unchanged, no later engine call is made, and
    the header is never computed. *)
Lemma compress_stops_at_first_failure (data : bytes)
    (quality lgwin lgblock : Z) (mode : brotli_mode) (backward : bool)
    (e : exn) (w : world) :
  engine_body _brotli mode quality lgwin lgblock data = Raise e ->
  (engine_Compressor _brotli mode quality lgwin lgblock = Raise e
   /\ compress _brotli data quality lgwin lgblock mode backward w
      = (Raise e,
         after_calls w [CallCompressor mode quality lgwin lgblock]))
  \/ (exists c,
        engine_Compressor _brotli mode quality lgwin lgblock = Return c
        /\ engine_process _brotli c data = Raise e
        /\ compress _brotli data quality lgwin lgblock mode backward w
           = (Raise e,
              after_calls w [CallCompressor mode quality lgwin lgblock;
                             CallProcess data]))
  \/ (exists c processed c',
        engine_Compressor _brotli mode quality lgwin lgblock = Return c
        /\ engine_process _brotli c data = Return (processed, c')
        /\ engine_finish _brotli c' = Raise e
        /\ compress _brotli data quality lgwin lgblock mode backward w
           = (Raise e,
              after_calls w [CallCompressor mode quality lgwin lgblock;
                             CallProcess data; CallFinish])).
Proof.
  unfold engine_body. rewrite compress_run. cbn zeta.
  destruct (engine_Compressor _ _ _ _ _) as [c|e0] eqn:Hnew.
  - destruct (engine_process _ c data) as [[processed c']|e1] eqn:Hprocess.
    + destruct (engine_finish _ c') as [finished|e2] eqn:Hfinish;
        [discriminate|].
      intros [= ->]. right. right. exists c, processed, c'.
      rewrite Hprocess, Hfinish. repeat split; reflexivity.
    + intros [= ->]. right. left. exists c.
      rewrite Hprocess. repeat split; reflexivity.
  - intros [= ->]. left. split; reflexivity.
Qed.

(** A stream the engine refuses as it is, made of 16 bytes and a rest
    that is not empty, decompresses to what the engine makes of the
    rest. *)
Lemma decompress_strips_header (header rest : bytes) (detail : string)
    (w : world) :
  length header = 16%nat ->
  rest <> [] ->
  engine_decompress _brotli (header ++ rest) = Raise (BrotliError detail) ->
  decompress _brotli (header ++ rest) w
  = (engine_decompress _brotli rest,
     after_calls w [CallDecompress (header ++ rest); CallDecompress rest]).
Proof.
  intros Hlen Hrest Hfirst. rewrite decompress_run, Hfirst.
  assert (Hlong : (16 <? len (header ++ rest)) = true).
  { apply Z.ltb_lt. unfold len. rewrite length_app, Hlen.
    destruct rest; [congruence|]. simpl. lia. }
  rewrite Hlong.
  rewrite drop_app_length'; [reflexivity | symmetry; exact Hlen].
Qed.

(** The 16 bytes dropped by the fallback are not looked at: two streams
    that the engine refuses as they are and that differ only in those
    bytes decompress alike, to whatever the engine makes of the rest. *)
Lemma decompress_ignores_header (header1 header2 rest : bytes)
    (detail1 detail2 : string) (w : world) :
  length header1 = 16%nat ->
  length header2 = 16%nat ->
  rest <> [] ->
  engine_decompress _brotli (header1 ++ rest) = Raise (BrotliError detail1) ->
  engine_decompress _brotli (header2 ++ rest) = Raise (BrotliError detail2) ->
  fst (decompress _brotli (header1 ++ rest) w) = engine_decompress _brotli rest
  /\ fst (decompress _brotli (header2 ++ rest) w)
     = engine_decompress _brotli rest.
Proof.
  intros Hlen1 Hlen2 Hrest Hfirst1 Hfirst2.
  rewrite (decompress_strips_header header1 rest detail1 w Hlen1 Hrest Hfirst1).
  rewrite (decompress_strips_header header2 rest detail2 w Hlen2 Hrest Hfirst2).
  split; reflexivity.
Qed.

(** [decompress] calls nothing of the engine but its [decompress]. *)
Lemma decompress_calls (data : bytes) (w : world) :
  exists cs,
    snd (decompress _brotli data w) = after_calls w cs
    /\ Forall (fun c => exists d, c = CallDecompress d) cs.
Proof.
  rewrite decompress_run.
  destruct (engine_decompress _ data) as [out|[detail| |status message|name]];
    try (eexists; split; [reflexivity|];
         apply List.Forall_cons; [eauto | apply List.Forall_nil]).
  destruct (16 <? len data);
    eexists; (split; [reflexivity|]);
    repeat (apply List.Forall_cons; [eauto|]); apply List.Forall_nil.
Qed.


End Orchestrators.

(** ** The test double meets the engine's contract *)

(** Induction three elements at a time, the way [Triplicate.decode]
    recurses. *)
Lemma list_ind3 {A : Type} (P : list A -> Prop) :
  P [] -> (forall a, P [a]) -> (forall a b, P [a; b]) ->
  (forall a b c rest, P rest -> P (a :: b :: c :: rest)) ->
  forall l, P l.
Proof.
  intros Hnil Hone Htwo Hstep l.
  assert (Hall : P l /\ (forall a, P (a :: l)) /\ (forall a b, P (a :: b :: l))).
  { induction l as [|x l (IH0 & IH1 & IH2)].
    - auto.
    - split; [apply IH1|]. split; [intros a; apply IH2|].
      intros a b. apply Hstep, IH0. }
  apply Hall.
Qed.

Lemma triplicate_decode_encode (b : bytes) :
  Triplicate.decode (Triplicate.encode b) = Return b.
Proof.
  induction b as [|a b IH]; [reflexivity|].
  cbn [Triplicate.encode flat_map app Triplicate.decode].
  fold (Triplicate.encode b).
  assert (Byte.eqb a a = true) as -> by (apply Byte.byte_dec_lb; reflexivity).
  rewrite IH. reflexivity.
Qed.

Lemma triplicate_decode_length (stream out : bytes) :
  Triplicate.decode stream = Return out ->
  length stream = (3 * length out)%nat.
Proof.
  revert out. induction stream as [|a|a b|a b c rest IH] using list_ind3;
    intros out; cbn [Triplicate.decode].
  - intros [= <-]. reflexivity.
  - discriminate.
  - discriminate.
  - destruct (Byte.eqb a b && Byte.eqb b c); [|discriminate].
    destruct (Triplicate.decode rest) as [out'|e]; [|discriminate].
    intros [= <-]. cbn [length]. rewrite (IH out' eq_refl). lia.
Qed.

Lemma triplicate_decode_error (stream : bytes) (e : exn) :
  Triplicate.decode stream = Raise e -> exists detail, e = BrotliError detail.
Proof.
  induction stream as [|a|a b|a b c rest IH] using list_ind3;
    cbn [Triplicate.decode].
  - discriminate.
  - intros [= <-]. eauto.
  - intros [= <-]. eauto.
  - destruct (Byte.eqb a b && Byte.eqb b c); [|intros [= <-]; eauto].
    destruct (Triplicate.decode rest) as [out'|e']; [discriminate|].
    intros [= <-]. apply IH. reflexivity.
Qed.

Lemma triplicate_encode_length (b : bytes) :
  length (Triplicate.encode b) = (3 * length b)%nat.
Proof.
  induction b as [|a b IH]; [reflexivity|].
  cbn [Triplicate.encode flat_map app length].
  fold (Triplicate.encode b). rewrite IH. lia.
Qed.

(** No stream with a 16-byte header in front of a compressed body is
    accepted: its length is not a multiple of three. *)
Lemma triplicate_refuses_header (header b : bytes) :
  length header = 16%nat ->
  exists detail,
    Triplicate.decode (header ++ Triplicate.encode b)
    = Raise (BrotliError detail).
Proof.
  intros Hheader.
  destruct (Triplicate.decode (header ++ Triplicate.encode b)) as [out|e] eqn:Hdec.
  - apply triplicate_decode_length in Hdec.
    rewrite length_app, triplicate_encode_length, Hheader in Hdec. lia.
  - destruct (triplicate_decode_error _ _ Hdec) as [detail ->]. eauto.
Qed.

Lemma triplicate_contract : engine_contract Triplicate.engine.
Proof.
  intros mode quality lgwin lgblock data body [= <-].
  rewrite app_nil_r. split.
  - apply triplicate_decode_encode.
  - intros header Hheader. apply triplicate_refuses_header, Hheader.
Qed.

(** ** The argument parser *)

Lemma elem_of_range (a b n : Z) : n ∈ range a b <-> a <= n < b.
Proof.
  unfold range. rewrite list_elem_of_In, in_map_iff. split.
  - intros (i & <- & Hi%in_seq). lia.
  - intros Hn. exists (Z.to_nat (n - a)). split; [lia|].
    apply in_seq. lia.
Qed.

Lemma check_value_accepts (choices : list Z) (n : Z) (name : string) :
  n ∈ choices -> check_value choices n name = Return tt.
Proof. intros Hin. unfold check_value. rewrite decide_True; auto. Qed.


Lemma asks_information_cons (a : arg) (args : list arg) :
  asks_information args -> asks_information (a :: args).
Proof. intros [H|H]; [left | right]; right; exact H. Qed.

Lemma asks_information_help (args : list arg) :
  asks_information (Flag_help :: args).
Proof. left. left. reflexivity. Qed.

Lemma asks_information_version (args : list arg) :
  asks_information (Flag_version :: args).
Proof. right. left. reflexivity. Qed.




(** The side conditions of [consume_keeps_defaults]: what one argument
    does to a field of the namespace. *)
Ltac one_argument :=
  cbn;
  first
    [ intros _; reflexivity
    | intros Hne; exfalso; eapply Hne; reflexivity
    | split;
      [ intros H; first [left; exact H | right; reflexivity]
      | intros [H|H]; first [exact H | discriminate H | reflexivity] ] ].

Section Main.

Context (_brotli : Engine).


(** A command line the parser refuses ends [main] at once: nothing has
    been read or written and the engine has not been called. *)
Lemma main_parse_error (args : list arg) (e : exn) (w : world) :
  parse_args (setup_parser _brotli) args = Raise e ->
  main _brotli args w = (Raise e, w).
Proof. intros Hparse. unfold main, bind, lift. rewrite Hparse. reflexivity. Qed.


Lemma parse_args_required (args : list arg) (options : Namespace) :
  parse_args (setup_parser _brotli) args = Return options ->
  exists options_infile options_output,
    infile options = Some options_infile
    /\ output options = Some options_output.
Proof.
  unfold parse_args.
  destruct (consume _ args _ []) as [[ns extras]|e]; [|discriminate].
  destruct (infile ns) as [i|] eqn:Hi; [|discriminate].
  destruct (output ns) as [o|] eqn:Ho; [|discriminate].
  destruct (negb _); [discriminate|].
  destruct extras; [|discriminate].
  intros [= <-]. eauto.
Qed.

(** The engine step leaves the files alone and only adds to the log. *)
Lemma engine_step_world (options : Namespace) (data : bytes) (w : world) :
  exists cs, snd (engine_step _brotli options data w) = after_calls w cs.
Proof.
  unfold engine_step. destruct (opt_compress options).
  - rewrite compress_run. cbn zeta.
    destruct (engine_Compressor _ _ _ _ _) as [c|e]; [|eauto].
    destruct (engine_process _ c data) as [[processed c']|e]; eauto.
  - rewrite decompress_run.
    destruct (engine_decompress _ data) as [out|[detail| |status message|name]];
      eauto.
    destruct (16 <? len data); eauto.
Qed.

(** [main] on a command line the parser accepts. *)
Lemma main_run (args : list arg) (options : Namespace)
    (options_infile options_output : string) (w : world) :
  parse_args (setup_parser _brotli) args = Return options ->
  infile options = Some options_infile ->
  output options = Some options_output ->
  main _brotli args w
  = match files w !! options_infile with
    | None =>
      (Raise (SystemExit 2 ("File " +:+ options_infile +:+ " not found")), w)
    | Some data =>
      match engine_step _brotli options data (output_opened options_output w) with
      | (Return out, w') =>
        (Return tt, {| files := <[options_output := out]> (files w);
                       calls := calls w' |})
      | (Raise (BrotliError detail), w') =>
        (Raise (SystemExit 1 ("brotli error: " +:+ detail +:+ ": "
                              +:+ options_infile)), w')
      | (Raise e, w') => (Raise e, w')
      end
    end.
Proof.
  intros Hparse Hin Hout.
  unfold main, bind, lift. rewrite Hparse, Hin, Hout.
  unfold os_path_isfile, read_file.
  destruct (files w !! options_infile) as [data|] eqn:Hfile.
  - rewrite bool_decide_true by eauto. cbn [negb ret].
    rewrite Hfile. unfold open_wb, try_except_brotli_error.
    fold (output_opened options_output w). fold (engine_step _brotli options data).
    destruct (engine_step_world options data (output_opened options_output w))
      as [cs Hworld].
    destruct (engine_step _brotli options data (output_opened options_output w))
      as [[out|e] w'] eqn:Hstep; cbn [snd] in Hworld; subst w'.
    + unfold file_write, file_close, ret, after_calls, output_opened.
      cbn [files calls]. rewrite lookup_insert_eq, insert_insert_eq.
      reflexivity.
    + destruct e; reflexivity.
  - rewrite bool_decide_false by (intros [? ?]; discriminate). reflexivity.
Qed.


(** With [options.compress] set and [options.lgwin] left at [None], the
    constructor receives the estimate for the data read. *)
Lemma main_estimates_lgwin (args : list arg) (options : Namespace)
    (options_infile : string) (data : bytes) (w : world) :
  parse_args (setup_parser _brotli) args = Return options ->
  opt_compress options = true ->
  lgwin options = None ->
  infile options = Some options_infile ->
  files w !! options_infile = Some data ->
  exists rest,
    calls (snd (main _brotli args w))
    = calls w
      ++ CallCompressor MODE_GENERIC (quality options)
           (calc_lgwin (len data)) (lgblock options) :: rest
    /\ Forall (fun c => c = CallProcess data \/ c = CallFinish) rest.
Proof.
  intros Hparse Hcompress Hlgwin Hin Hfile.
  destruct (parse_args_required args options Hparse) as (i & o & Hin' & Hout).
  rewrite Hin in Hin'. injection Hin' as <-.
  rewrite (main_run args options options_infile o w Hparse Hin Hout), Hfile.
  unfold engine_step. rewrite Hcompress, Hlgwin.
  destruct (compress_calls _brotli data (quality options) (calc_lgwin (len data))
              (lgblock options) MODE_GENERIC (backward options)
              (output_opened o w)) as (rest & Hworld & Hrest).
  exists rest. split; [|exact Hrest].
  destruct (compress _ _ _ _ _ _ _ _) as [[out|e] w'];
    cbn [snd] in Hworld; subst w'; [reflexivity|].
  destruct e; reflexivity.
Qed.

(** The parser treats two such command lines alike, up to the [gap] it
    stores. *)
Lemma consume_same_but_gap (args1 args2 : list arg) :
  Forall2 same_but_gap args1 args2 ->
  forall ns1 ns2 extras,
    forget_gap ns1 = forget_gap ns2 ->
    match consume (setup_parser _brotli) args1 ns1 extras,
          consume (setup_parser _brotli) args2 ns2 extras with
    | Return (n1, x1), Return (n2, x2) => forget_gap n1 = forget_gap n2 /\ x1 = x2
    | Raise e1, Raise e2 => e1 = e2
    | _, _ => False
    end.
Proof.
  induction 1 as [|a1 a2 args1 args2 Harg _ IH]; intros ns1 ns2 extras Hns.
  - cbn. auto.
  - destruct ns1 as [c1 d1 i1 o1 q1 g1' lw1 lb1 b1],
             ns2 as [c2 d2 i2 o2 q2 g2' lw2 lb2 b2].
    unfold forget_gap, set_gap in Hns. cbn in Hns.
    injection Hns as -> -> -> -> -> -> -> ->.
    destruct Harg as [a|g1 g2 Hg1 Hg2].
    + destruct a as [| | | |s|s|n|n|n|n|];
        cbn [consume opt_compress opt_decompress infile].
      * reflexivity.
      * reflexivity.
      * destruct d2; [reflexivity|]. apply IH. reflexivity.
      * destruct c2; [reflexivity|]. apply IH. reflexivity.
      * destruct i2; apply IH; reflexivity.
      * apply IH. reflexivity.
      * destruct (check_value _ n _); [apply IH|]; reflexivity.
      * destruct (check_value _ n _); [apply IH|]; reflexivity.
      * destruct (check_value _ n _); [apply IH|]; reflexivity.
      * destruct (check_value _ n _); [apply IH|]; reflexivity.
      * apply IH. reflexivity.
    + cbn [consume setup_parser gap_choices].
      rewrite !check_value_accepts by (apply elem_of_range; lia).
      apply IH. reflexivity.
Qed.

Lemma parse_args_same_but_gap (args1 args2 : list arg) :
  Forall2 same_but_gap args1 args2 ->
  match parse_args (setup_parser _brotli) args1,
        parse_args (setup_parser _brotli) args2 with
  | Return n1, Return n2 => forget_gap n1 = forget_gap n2
  | Raise e1, Raise e2 => e1 = e2
  | _, _ => False
  end.
Proof.
  intros Hargs. unfold parse_args.
  pose proof (consume_same_but_gap args1 args2 Hargs
                (defaults (setup_parser _brotli))
                (defaults (setup_parser _brotli)) [] eq_refl) as Hrun.
  destruct (consume _ args1 _ _) as [[n1 x1]|e1],
           (consume _ args2 _ _) as [[n2 x2]|e2]; try contradiction;
    [|exact Hrun].
  destruct Hrun as [Hns <-].
  destruct n1 as [c1 d1 i1 o1 q1 g1 lw1 lb1 b1],
           n2 as [c2 d2 i2 o2 q2 g2 lw2 lb2 b2].
  unfold forget_gap, set_gap in Hns |- *. cbn in Hns |- *.
  injection Hns as -> -> -> -> -> -> -> ->.
  destruct i2; [|reflexivity]. destruct o2; [|reflexivity].
  destruct (negb (c2 || d2)); [reflexivity|].
  destruct x1; reflexivity.
Qed.

(** C10: two runs whose command lines differ only in the value given to
    --gap, any value from 1 to 16, end alike: the same result (return,
    or the same exception with the same exit status and message), the
    same files with the same contents, the same engine calls. *)
Theorem gap_has_no_effect (args1 args2 : list arg) (w : world) :
  Forall2 same_but_gap args1 args2 ->
  main _brotli args1 w = main _brotli args2 w.
Proof.
  intros Hargs. pose proof (parse_args_same_but_gap args1 args2 Hargs) as Hparse.
  unfold main, bind, lift.
  destruct (parse_args _ args1) as [n1|e1], (parse_args _ args2) as [n2|e2];
    try contradiction.
  - destruct n1 as [c1 d1 i1 o1 q1 g1 lw1 lb1 b1],
             n2 as [c2 d2 i2 o2 q2 g2 lw2 lb2 b2].
    unfold forget_gap, set_gap in Hparse. cbn in Hparse.
    injection Hparse as -> -> -> -> -> -> -> ->. reflexivity.
  - rewrite Hparse. reflexivity.
Qed.

(** The namespace mirrors the command line: [lgwin] is [None] exactly
    when no --lgwin was given, and [compress] is set exactly when
    --compress was. *)
Lemma consume_reflects_command_line (args : list arg) :
  forall ns extras ns' extras',
    consume (setup_parser _brotli) args ns extras = Return (ns', extras') ->
    (lgwin ns' = None
     <-> lgwin ns = None /\ forall n, ~ In (Opt_lgwin n) args)
    /\ (opt_compress ns' = true
        <-> opt_compress ns = true \/ In Flag_compress args).
Proof.
  induction args as [|a args IH]; intros ns extras ns' extras' Hrun.
  - injection Hrun as <- <-. cbn. split; [|tauto].
    split; [intros H; split; [exact H | tauto] | tauto].
  - assert (Hstep : forall ns1 extras1,
              consume (setup_parser _brotli) args ns1 extras1
              = Return (ns', extras') ->
              lgwin ns1 = lgwin ns -> opt_compress ns1 = opt_compress ns ->
              (forall n, a <> Opt_lgwin n) -> a <> Flag_compress ->
              (lgwin ns' = None
               <-> lgwin ns = None /\ forall n, ~ In (Opt_lgwin n) (a :: args))
              /\ (opt_compress ns' = true
                  <-> opt_compress ns = true \/ In Flag_compress (a :: args))).
    { intros ns1 extras1 Hrest Hlgwin Hflag Hnot_lgwin Hnot_flag.
      destruct (IH _ _ _ _ Hrest) as [IHl IHc].
      rewrite IHl, IHc, Hlgwin, Hflag. cbn [In]. split.
      - split; intros [Hnone Hnot]; (split; [exact Hnone|]); intros n.
        + intros [Heq|Hin]; [exact (Hnot_lgwin n Heq) | exact (Hnot n Hin)].
        + intros Hin. apply (Hnot n). right. exact Hin.
      - split; intros [Hset|Hin]; auto.
        destruct Hin as [Heq|Hin]; [contradiction | auto]. }
    destruct a as [| | | |s|s|n|n|n|n|]; cbn [consume] in Hrun.
    + discriminate.
    + discriminate.
    + destruct (opt_decompress ns); [discriminate|].
      destruct (IH _ _ _ _ Hrun) as [IHl IHc]. rewrite IHl, IHc. cbn.
      split; [|tauto].
      split; intros [Hnone Hnot]; (split; [exact Hnone|]); intros n.
      * intros [Heq|Hin]; [discriminate | exact (Hnot n Hin)].
      * intros Hin. apply (Hnot n). right. exact Hin.
    + destruct (opt_compress ns) eqn:Hc; [discriminate|].
      apply (Hstep _ _ Hrun); try reflexivity; try discriminate.
      exact Hc.
    + destruct (infile ns);
        apply (Hstep _ _ Hrun); try reflexivity; discriminate.
    + apply (Hstep _ _ Hrun); try reflexivity; discriminate.
    + destruct (check_value _ n _); [|discriminate].
      apply (Hstep _ _ Hrun); try reflexivity; discriminate.
    + destruct (check_value _ n _); [|discriminate].
      apply (Hstep _ _ Hrun); try reflexivity; discriminate.
    + destruct (check_value _ n _); [|discriminate].
      destruct (IH _ _ _ _ Hrun) as [IHl IHc]. rewrite IHl, IHc. cbn.
      split; [|intuition discriminate].
      split; [intros [Hnone _]; discriminate|].
      intros [_ Hnot]. exfalso. apply (Hnot n). left. reflexivity.
    + destruct (check_value _ n _); [|discriminate].
      apply (Hstep _ _ Hrun); try reflexivity; discriminate.
    + apply (Hstep _ _ Hrun); try reflexivity; discriminate.
Qed.

Lemma parse_args_reflects_command_line (args : list arg) (options : Namespace) :
  parse_args (setup_parser _brotli) args = Return options ->
  (lgwin options = None <-> forall n, ~ In (Opt_lgwin n) args)
  /\ (opt_compress options = true <-> In Flag_compress args).
Proof.
  unfold parse_args.
  destruct (consume _ args _ []) as [[ns extras]|e] eqn:Hrun; [|discriminate].
  destruct (infile ns); [|discriminate]. destruct (output ns); [|discriminate].
  destruct (negb _); [discriminate|]. destruct extras; [|discriminate].
  intros [= <-].
  destruct (consume_reflects_command_line args _ _ _ _ Hrun) as [Hl Hc].
  rewrite Hl, Hc. cbn. split; [tauto|].
  split; [intros [Hfalse|Hin]; [discriminate | exact Hin] | auto].
Qed.

(** C8 (amended): when [main] compresses and no window exponent is
    given on the command line, the exponent the engine's constructor
    receives is [calc_lgwin (len data)], for the [data] read from the
    input file; it is the only constructor call of the run.  The
    estimate is [main]'s: [compress] passes on the exponent it is
    given. *)
Theorem unset_lgwin_is_estimated (args : list arg) (options : Namespace)
    (options_infile : string) (data : bytes) (w : world) :
  parse_args (setup_parser _brotli) args = Return options ->
  In Flag_compress args ->
  (forall n, ~ In (Opt_lgwin n) args) ->
  infile options = Some options_infile ->
  files w !! options_infile = Some data ->
  (exists rest,
     calls (snd (main _brotli args w))
     = calls w
       ++ CallCompressor MODE_GENERIC (quality options)
            (calc_lgwin (len data)) (lgblock options) :: rest
     /\ Forall (fun c => c = CallProcess data \/ c = CallFinish) rest)
  /\ (forall given payload w0,
        exists rest,
          calls (snd (compress _brotli payload (quality options) given
                        (lgblock options) MODE_GENERIC (backward options) w0))
          = calls w0
            ++ CallCompressor MODE_GENERIC (quality options) given
                 (lgblock options) :: rest).
Proof.
  intros Hparse Hflag Hunset Hin Hfile.
  destruct (parse_args_reflects_command_line args options Hparse) as [Hl Hc].
  split.
  - apply (main_estimates_lgwin args options options_infile data w);
      [exact Hparse | apply Hc, Hflag | apply Hl, Hunset | exact Hin
      | exact Hfile].
  - intros given payload w0.
    destruct (compress_calls _brotli payload (quality options) given
                (lgblock options) MODE_GENERIC (backward options) w0)
      as (rest & Hworld & _).
    exists rest. rewrite Hworld. reflexivity.
Qed.

(** A missing input file ends the run with status 2 before anything is
    opened for writing and before any engine call. *)
Lemma main_missing_input (args : list arg) (options : Namespace)
    (options_infile : string) (w : world) :
  parse_args (setup_parser _brotli) args = Return options ->
  infile options = Some options_infile ->
  files w !! options_infile = None ->
  main _brotli args w
  = (Raise (SystemExit 2 ("File " +:+ options_infile +:+ " not found")), w).
Proof.
  intros Hparse Hin Hfile.
  destruct (parse_args_required args options Hparse) as (i & o & Hin' & Hout).
  rewrite (main_run args options i o w Hparse Hin' Hout).
  rewrite Hin in Hin'. injection Hin' as <-. rewrite Hfile. reflexivity.
Qed.


(** Whatever stops the parser is a [SystemExit]: with status 2, or with
    status 0 when it is the help or the version flag. *)
Lemma consume_failure (args : list arg) :
  forall ns extras e,
    consume (setup_parser _brotli) args ns extras = Raise e ->
    exists status message,
      e = SystemExit status message
      /\ (status = 2 \/ (status = 0 /\ asks_information args)).
Proof.
  induction args as [|a args IH]; intros ns extras e Hrun; [discriminate|].
  assert (Hlater : forall ns' extras',
            consume (setup_parser _brotli) args ns' extras' = Raise e ->
            exists status message,
              e = SystemExit status message
              /\ (status = 2 \/ (status = 0 /\ asks_information (a :: args)))).
  { intros ns' extras' Hrest.
    destruct (IH _ _ _ Hrest) as (status & message & -> & Hstatus).
    exists status, message. split; [reflexivity|].
    destruct Hstatus as [|[? ?]];
      [left | right; split; [|apply asks_information_cons]]; assumption. }
  assert (Hrefused : forall message,
            @error_ (Namespace * list string) message = Raise e ->
            exists status message',
              e = SystemExit status message'
              /\ (status = 2 \/ (status = 0 /\ asks_information (a :: args)))).
  { intros message [= <-]. do 2 eexists. split; [reflexivity|left; reflexivity]. }
  assert (Hchecked : forall choices n name ns',
            match check_value choices n name with
            | Return _ => consume (setup_parser _brotli) args ns' extras
            | Raise e' => Raise e'
            end = Raise e ->
            exists status message,
              e = SystemExit status message
              /\ (status = 2 \/ (status = 0 /\ asks_information (a :: args)))).
  { intros choices n name ns'. unfold check_value.
    destruct (decide _); [apply Hlater|].
    intros [= <-]. do 2 eexists. split; [reflexivity|left; reflexivity]. }
  destruct a as [| | | |s|s|n|n|n|n|]; cbn [consume] in Hrun.
  - injection Hrun as <-. do 2 eexists. split; [reflexivity|].
    right. split; [reflexivity | apply asks_information_help].
  - injection Hrun as <-. do 2 eexists. split; [reflexivity|].
    right. split; [reflexivity | apply asks_information_version].
  - destruct (opt_decompress ns); [eapply Hrefused | eapply Hlater]; exact Hrun.
  - destruct (opt_compress ns); [eapply Hrefused | eapply Hlater]; exact Hrun.
  - destruct (infile ns); eapply Hlater; exact Hrun.
  - eapply Hlater; exact Hrun.
  - eapply Hchecked; exact Hrun.
  - eapply Hchecked; exact Hrun.
  - eapply Hchecked; exact Hrun.
  - eapply Hchecked; exact Hrun.
  - eapply Hlater; exact Hrun.
Qed.

Lemma parse_args_failure (args : list arg) (e : exn) :
  parse_args (setup_parser _brotli) args = Raise e ->
  exists status message,
    e = SystemExit status message
    /\ (status = 2 \/ (status = 0 /\ asks_information args)).
Proof.
  unfold parse_args.
  destruct (consume _ args _ []) as [[ns extras]|e'] eqn:Hrun.
  - assert (Hrefused : forall message,
              @error_ Namespace message = Raise e ->
              exists status message',
                e = SystemExit status message'
                /\ (status = 2 \/ (status = 0 /\ asks_information args))).
    { intros message [= <-]. do 2 eexists.
      split; [reflexivity|left; reflexivity]. }
    destruct (infile ns); [|apply Hrefused].
    destruct (output ns); [|apply Hrefused].
    destruct (negb _); [apply Hrefused|].
    destruct extras; [discriminate|apply Hrefused].
  - intros [= <-]. apply (consume_failure args _ _ _ Hrun).
Qed.

(** A command line the parser refuses ends the run with [SystemExit],
    status 2 (status 0 for the help and the version flag), and nothing
    has happened:
    no file was read or written and the engine was not called. *)
Lemma usage_error_ends_run (args : list arg) (e : exn) (w : world) :
  parse_args (setup_parser _brotli) args = Raise e ->
  main _brotli args w = (Raise e, w)
  /\ exists status message,
       e = SystemExit status message
       /\ (status = 2 \/ (status = 0 /\ asks_information args)).
Proof.
  intros Hparse. split.
  - apply main_parse_error, Hparse.
  - apply parse_args_failure, Hparse.
Qed.

(** The parser keeps every stored value within its choices, and never
    sets both flags of the exclusive group. *)
Lemma consume_keeps_ranges (args : list arg) :
  forall ns extras ns' extras',
    in_ranges ns ->
    consume (setup_parser _brotli) args ns extras = Return (ns', extras') ->
    in_ranges ns'.
Proof.
  induction args as [|a args IH]; intros ns extras ns' extras' Hinv Hrun.
  - injection Hrun as <- _. exact Hinv.
  - pose proof Hinv as (Hq & Hg & Hl & Hb & Hx).
    destruct a as [| | | |s|s|n|n|n|n|]; cbn [consume] in Hrun.
    + discriminate.
    + discriminate.
    + destruct (opt_decompress ns) eqn:Hd; [discriminate|].
      refine (IH _ _ _ _ _ Hrun).
      split; [exact Hq|]. split; [exact Hg|]. split; [exact Hl|].
      split; [exact Hb|]. cbn. rewrite Hd. reflexivity.
    + destruct (opt_compress ns) eqn:Hc; [discriminate|].
      refine (IH _ _ _ _ _ Hrun).
      split; [exact Hq|]. split; [exact Hg|]. split; [exact Hl|].
      split; [exact Hb|]. cbn. rewrite Hc. reflexivity.
    + destruct (infile ns); exact (IH _ _ _ _ (Hinv : in_ranges (set_infile s ns)) Hrun) || exact (IH _ _ _ _ Hinv Hrun).
    + exact (IH _ _ _ _ (Hinv : in_ranges (set_output s ns)) Hrun).
    + unfold check_value in Hrun.
      destruct (decide _) as [Hin|]; [|discriminate].
      cbn in Hin. apply elem_of_range in Hin.
      refine (IH _ _ _ _ _ Hrun).
      split; [cbn; lia|]. split; [exact Hg|]. split; [exact Hl|].
      split; [exact Hb | exact Hx].
    + unfold check_value in Hrun.
      destruct (decide _) as [Hin|]; [|discriminate].
      cbn in Hin. apply elem_of_range in Hin.
      refine (IH _ _ _ _ _ Hrun).
      split; [exact Hq|]. split; [cbn; lia|]. split; [exact Hl|].
      split; [exact Hb | exact Hx].
    + unfold check_value in Hrun.
      destruct (decide _) as [Hin|]; [|discriminate].
      cbn in Hin. apply elem_of_range in Hin.
      refine (IH _ _ _ _ _ Hrun).
      split; [exact Hq|]. split; [exact Hg|].
      split; [cbn; intros l [= <-]; lia|].
      split; [exact Hb | exact Hx].
    + unfold check_value in Hrun.
      destruct (decide _) as [Hin|]; [|discriminate].
      cbn [setup_parser lgblock_choices] in Hin.
      rewrite elem_of_app, list_elem_of_singleton, elem_of_range in Hin.
      refine (IH _ _ _ _ _ Hrun).
      split; [exact Hq|]. split; [exact Hg|]. split; [exact Hl|].
      split; [cbn; lia | exact Hx].
    + exact (IH _ _ _ _ (Hinv : in_ranges (set_backward true ns)) Hrun).
Qed.

Lemma defaults_in_ranges : in_ranges (defaults (setup_parser _brotli)).
Proof.
  unfold in_ranges. cbn. unfold BROTLI_DEFAULT_QUALITY.
  split; [lia|]. split; [lia|]. split; [intros l Hl; discriminate|].
  split; [left; reflexivity | reflexivity].
Qed.

Lemma parse_args_in_ranges (args : list arg) (options : Namespace) :
  parse_args (setup_parser _brotli) args = Return options ->
  in_ranges options.
Proof.
  unfold parse_args.
  destruct (consume _ args _ []) as [[ns extras]|e] eqn:Hrun; [|discriminate].
  destruct (infile ns); [|discriminate]. destruct (output ns); [|discriminate].
  destruct (negb _); [discriminate|]. destruct extras; [|discriminate].
  intros [= <-]. apply (consume_keeps_ranges args _ _ _ _ defaults_in_ranges Hrun).
Qed.

(** Every namespace [parse_args] returns is valid: the integers are
    within the choices of their options, the input and output paths are
    given, and exactly one of compress and decompress is chosen. *)
Lemma parse_args_valid (args : list arg) (options : Namespace) :
  parse_args (setup_parser _brotli) args = Return options ->
  valid_options options.
Proof.
  intros Hparse. pose proof (parse_args_in_ranges args options Hparse) as Hinv.
  split; [exact Hinv|].
  destruct Hinv as (_ & _ & _ & _ & Hx).
  unfold parse_args in Hparse.
  destruct (consume _ args _ []) as [[ns extras]|e]; [|discriminate].
  destruct (infile ns) as [i|] eqn:Hi; [|discriminate].
  destruct (output ns) as [o|] eqn:Ho; [|discriminate].
  destruct (negb _) eqn:Hflag; [discriminate|].
  destruct extras; [|discriminate].
  injection Hparse as <-. rewrite Hi, Ho.
  split; [eauto|]. split; [eauto|].
  destruct (opt_compress ns), (opt_decompress ns); cbn in *; congruence.
Qed.

(** An option that is not on the command line keeps the value the
    namespace had, and [backward] is set exactly by its flag. *)
Lemma consume_keeps_defaults (args : list arg) :
  forall ns extras ns' extras',
    consume (setup_parser _brotli) args ns extras = Return (ns', extras') ->
    ((forall n, ~ In (Opt_quality n) args) -> quality ns' = quality ns)
    /\ ((forall n, ~ In (Opt_gap n) args) -> gap ns' = gap ns)
    /\ ((forall n, ~ In (Opt_lgblock n) args) -> lgblock ns' = lgblock ns)
    /\ (backward ns' = true <-> backward ns = true \/ In Flag_backward args).
Proof.
  induction args as [|a args IH]; intros ns extras ns' extras' Hrun.
  - injection Hrun as <- _. cbn. repeat split; auto. intros [H|[]]. exact H.
  - assert (Hstep : forall ns1 extras1,
              consume (setup_parser _brotli) args ns1 extras1
              = Return (ns', extras') ->
              ((forall n, a <> Opt_quality n) -> quality ns1 = quality ns) ->
              ((forall n, a <> Opt_gap n) -> gap ns1 = gap ns) ->
              ((forall n, a <> Opt_lgblock n) -> lgblock ns1 = lgblock ns) ->
              (backward ns1 = true
               <-> backward ns = true \/ a = Flag_backward) ->
              ((forall n, ~ In (Opt_quality n) (a :: args)) ->
               quality ns' = quality ns)
              /\ ((forall n, ~ In (Opt_gap n) (a :: args)) ->
                  gap ns' = gap ns)
              /\ ((forall n, ~ In (Opt_lgblock n) (a :: args)) ->
                  lgblock ns' = lgblock ns)
              /\ (backward ns' = true
                  <-> backward ns = true \/ In Flag_backward (a :: args))).
    { intros ns1 extras1 Hrest Hq1 Hg1 Hb1 Hk1.
      destruct (IH _ _ _ _ Hrest) as (Hq & Hg & Hb & Hk).
      assert (Htail : forall (P : Z -> arg),
                (forall n, ~ In (P n) (a :: args)) ->
                (forall n, a <> P n) /\ (forall n, ~ In (P n) args)).
      { intros P Hnot. split; intros n H; apply (Hnot n);
          [left; exact H | right; exact H]. }
      split; [|split; [|split]].
      - intros Hnot. destruct (Htail _ Hnot) as [Hhead Hrest'].
        rewrite (Hq Hrest'). apply Hq1, Hhead.
      - intros Hnot. destruct (Htail _ Hnot) as [Hhead Hrest'].
        rewrite (Hg Hrest'). apply Hg1, Hhead.
      - intros Hnot. destruct (Htail _ Hnot) as [Hhead Hrest'].
        rewrite (Hb Hrest'). apply Hb1, Hhead.
      - rewrite Hk, Hk1. cbn [In]. split.
        + intros [[H|H]|H]; auto.
        + intros [H|[H|H]]; auto. }
    destruct a as [| | | |s|s|n|n|n|n|]; cbn [consume] in Hrun.
    + discriminate.
    + discriminate.
    + destruct (opt_decompress ns); [discriminate|].
      apply (Hstep _ _ Hrun); one_argument.
    + destruct (opt_compress ns); [discriminate|].
      apply (Hstep _ _ Hrun); one_argument.
    + destruct (infile ns); apply (Hstep _ _ Hrun); one_argument.
    + apply (Hstep _ _ Hrun); one_argument.
    + destruct (check_value _ n _); [|discriminate].
      apply (Hstep _ _ Hrun); one_argument.
    + destruct (check_value _ n _); [|discriminate].
      apply (Hstep _ _ Hrun); one_argument.
    + destruct (check_value _ n _); [|discriminate].
      apply (Hstep _ _ Hrun); one_argument.
    + destruct (check_value _ n _); [|discriminate].
      apply (Hstep _ _ Hrun); one_argument.
    + apply (Hstep _ _ Hrun); one_argument.
Qed.

(** The defaults of [setup_parser]: a run that gives no --quality
    compresses with quality 9, no --gap leaves 1, no --lgblock leaves 0,
    and the legacy header is written exactly when --backward is given. *)
Lemma parse_args_defaults (args : list arg) (options : Namespace) :
  parse_args (setup_parser _brotli) args = Return options ->
  ((forall n, ~ In (Opt_quality n) args) -> quality options = 9)
  /\ ((forall n, ~ In (Opt_gap n) args) -> gap options = 1)
  /\ ((forall n, ~ In (Opt_lgblock n) args) -> lgblock options = 0)
  /\ (backward options = true <-> In Flag_backward args).
Proof.
  unfold parse_args.
  destruct (consume _ args _ []) as [[ns extras]|e] eqn:Hrun; [|discriminate].
  destruct (infile ns); [|discriminate]. destruct (output ns); [|discriminate].
  destruct (negb _); [discriminate|]. destruct extras; [|discriminate].
  intros [= <-].
  destruct (consume_keeps_defaults args _ _ _ _ Hrun) as (Hq & Hg & Hb & Hk).
  split; [exact Hq|]. split; [exact Hg|]. split; [exact Hb|].
  rewrite Hk. cbn. split; [intros [H|H]; [discriminate H | exact H] | auto].
Qed.

(** The calls of the engine step are valid: the one constructor call of a
    compression carries the quality and block exponent of the namespace
    and either the exponent given or the estimate. *)
Lemma engine_step_calls (options : Namespace) (data : bytes) (w : world) :
  in_ranges options ->
  exists cs,
    snd (engine_step _brotli options data w) = after_calls w cs
    /\ Forall valid_call cs.
Proof.
  intros (Hq & _ & Hl & Hb & _). unfold engine_step.
  destruct (opt_compress options).
  - destruct (compress_calls _brotli data (quality options)
                (match lgwin options with
                 | Some l => l
                 | None => calc_lgwin (len data)
                 end)
                (lgblock options) MODE_GENERIC (backward options) w)
      as (rest & Hworld & Hrest).
    eexists. split; [exact Hworld|].
    apply List.Forall_cons.
    + cbn. split; [reflexivity|]. split; [exact Hq|]. split; [|exact Hb].
      destruct (lgwin options) as [l|]; [apply Hl; reflexivity|].
      apply calc_lgwin_range.
    + apply (List.Forall_impl _ (P := fun c => c = CallProcess data \/ c = CallFinish));
        [|exact Hrest].
      intros c [->| ->]; exact I.
  - destruct (decompress_calls _brotli data w) as (cs & Hworld & Hcs).
    exists cs. split; [exact Hworld|].
    apply (List.Forall_impl _ (P := fun c => exists d, c = CallDecompress d));
      [|exact Hcs].
    intros c [d ->]. exact I.
Qed.

(** The engine calls of a run are those of its engine step. *)
Lemma main_calls (args : list arg) (options : Namespace)
    (options_infile options_output : string) (data : bytes) (w : world) :
  parse_args (setup_parser _brotli) args = Return options ->
  infile options = Some options_infile ->
  output options = Some options_output ->
  files w !! options_infile = Some data ->
  calls (snd (main _brotli args w))
  = calls (snd (engine_step _brotli options data
                  (output_opened options_output w))).
Proof.
  intros Hparse Hin Hout Hfile.
  rewrite (main_run args options _ _ w Hparse Hin Hout), Hfile.
  destruct (engine_step _ _ _ _) as [[out|e] w']; [reflexivity|].
  destruct e; reflexivity.
Qed.

(** Whatever the command line, [main] constructs the engine only with
    parameters within the ranges of the command line (quality 0-11,
    window exponent 10-24, block exponent 0 or 16-24) and the generic
    mode; the log only grows. *)
Lemma main_calls_valid (args : list arg) (w : world) :
  exists cs,
    calls (snd (main _brotli args w)) = calls w ++ cs
    /\ Forall valid_call cs.
Proof.
  destruct (parse_args (setup_parser _brotli) args) as [options|e] eqn:Hparse.
  - destruct (parse_args_required args options Hparse) as (i & o & Hin & Hout).
    destruct (files w !! i) as [data|] eqn:Hfile.
    + rewrite (main_calls args options i o data w Hparse Hin Hout Hfile).
      destruct (engine_step_calls options data (output_opened o w)
                  (parse_args_in_ranges args options Hparse))
        as (cs & Hworld & Hcs).
      exists cs. rewrite Hworld. split; [reflexivity | exact Hcs].
    + rewrite (main_run args options i o w Hparse Hin Hout), Hfile.
      exists []. split; [cbn; rewrite app_nil_r; reflexivity|].
      apply List.Forall_nil.
  - rewrite (main_parse_error args e w Hparse).
    exists []. split; [cbn; rewrite app_nil_r; reflexivity|].
    apply List.Forall_nil.
Qed.

(** An explicit --lgwin reaches the engine's constructor unchanged; the
    estimate is not used. *)
Lemma main_passes_given_lgwin (args : list arg) (options : Namespace)
    (options_infile : string) (data : bytes) (given : Z) (w : world) :
  parse_args (setup_parser _brotli) args = Return options ->
  opt_compress options = true ->
  lgwin options = Some given ->
  infile options = Some options_infile ->
  files w !! options_infile = Some data ->
  exists rest,
    calls (snd (main _brotli args w))
    = calls w
      ++ CallCompressor MODE_GENERIC (quality options) given
           (lgblock options) :: rest
    /\ Forall (fun c => c = CallProcess data \/ c = CallFinish) rest
    /\ 10 <= given <= 24.
Proof.
  intros Hparse Hcompress Hlgwin Hin Hfile.
  destruct (parse_args_required args options Hparse) as (i & o & Hin' & Hout).
  rewrite Hin in Hin'. injection Hin' as <-.
  rewrite (main_calls args options _ o data w Hparse Hin Hout Hfile).
  unfold engine_step. rewrite Hcompress, Hlgwin.
  destruct (compress_calls _brotli data (quality options) given
              (lgblock options) MODE_GENERIC (backward options)
              (output_opened o w)) as (rest & Hworld & Hrest).
  exists rest. rewrite Hworld. split; [reflexivity|]. split; [exact Hrest|].
  destruct (parse_args_in_ranges args options Hparse) as (_ & _ & Hl & _).
  apply Hl, Hlgwin.
Qed.

(** An engine error ends the run with status 1 and the message
    [brotli error: <detail>: <input path>]. *)
Lemma main_reports_engine_error (args : list arg) (options : Namespace)
    (options_infile options_output : string) (data : bytes)
    (detail : string) (w w1 : world) :
  parse_args (setup_parser _brotli) args = Return options ->
  infile options = Some options_infile ->
  output options = Some options_output ->
  files w !! options_infile = Some data ->
  engine_step _brotli options data (output_opened options_output w)
  = (Raise (BrotliError detail), w1) ->
  main _brotli args w
  = (Raise (SystemExit 1 ("brotli error: " +:+ detail +:+ ": "
                          +:+ options_infile)), w1).
Proof.
  intros Hparse Hin Hout Hfile Hstep.
  rewrite (main_run args options _ _ w Hparse Hin Hout), Hfile, Hstep.
  reflexivity.
Qed.

(** No [_brotli.error] leaves [main]: whatever the command line, the
    files and the engine, a run that ends with an exception ends with
    another one. *)
Lemma main_never_raises_brotli_error (args : list arg) (w : world) :
  match fst (main _brotli args w) with
  | Return _ => True
  | Raise e => is_brotli_error e = false
  end.
Proof.
  destruct (parse_args (setup_parser _brotli) args) as [options|e] eqn:Hparse.
  - destruct (parse_args_required args options Hparse) as (i & o & Hin & Hout).
    rewrite (main_run args options i o w Hparse Hin Hout).
    destruct (files w !! i) as [data|]; [|reflexivity].
    destruct (engine_step _ _ _ _) as [[out|e] w']; [exact I|].
    destruct e; reflexivity.
  - rewrite (main_parse_error args e w Hparse).
    destruct (parse_args_failure args e Hparse) as (status & message & -> & _).
    reflexivity.
Qed.


(** A decompression run depends on the command line through the two
    paths only: quality, gap, window and block exponents and the legacy
    flag have no effect on it. *)
Lemma decompression_ignores_parameters (args1 args2 : list arg)
    (options1 options2 : Namespace) (w : world) :
  parse_args (setup_parser _brotli) args1 = Return options1 ->
  parse_args (setup_parser _brotli) args2 = Return options2 ->
  opt_compress options1 = false ->
  opt_compress options2 = false ->
  infile options1 = infile options2 ->
  output options1 = output options2 ->
  main _brotli args1 w = main _brotli args2 w.
Proof.
  intros Hparse1 Hparse2 Hmode1 Hmode2 Hin Hout.
  destruct (parse_args_required args1 options1 Hparse1)
    as (i & o & Hin1 & Hout1).
  rewrite (main_run args1 options1 i o w Hparse1 Hin1 Hout1).
  rewrite Hin in Hin1. rewrite Hout in Hout1.
  rewrite (main_run args2 options2 i o w Hparse2 Hin1 Hout1).
  unfold engine_step. rewrite Hmode1, Hmode2. reflexivity.
Qed.

(** The version flag as first argument ends the run with status 0 and
    the engine's version string, whatever follows it; nothing is read,
    written or compressed. *)
Lemma version_flag_first (rest : list arg) (w : world) :
  main _brotli (Flag_version :: rest) w
  = (Raise (SystemExit 0 (engine_version _brotli)), w).
Proof. reflexivity. Qed.




End Main.

(** ** Runs of the tool with the test double *)

(** One byte through [compress] with the legacy header and back. *)
Lemma roundtrip_legacy_header_witness :
  exists w1 w2,
    compress Triplicate.engine [x41] 9 22 0 MODE_GENERIC true empty_world
    = (Return ([x01; x00; x00; x00; x00; x00; x00; x00;
                x00; x00; x00; x00; x00; x00; x00; x00]
               ++ [x41; x41; x41] ++ []), w1)
    /\ decompress Triplicate.engine
         ([x01; x00; x00; x00; x00; x00; x00; x00;
           x00; x00; x00; x00; x00; x00; x00; x00]
          ++ [x41; x41; x41] ++ []) w1
       = (Return [x41], w2).
Proof.
  apply (roundtrip_legacy_header Triplicate.engine [x41] 9 22 0 MODE_GENERIC
           tt tt [x41; x41; x41] [] _ "corrupt input" empty_world);
    try reflexivity.
  discriminate.
Defined.

(** C1, as stated, fails: the test double meets the contract, yet for the
    empty payload its body is empty, the stream is the 16 header bytes
    alone, and [decompress] raises where [b] was expected. *)
Lemma roundtrip_legacy_header_empty_body :
  engine_contract Triplicate.engine
  /\ exists w1,
       compress Triplicate.engine [] 9 22 0 MODE_GENERIC true empty_world
       = (Return (repeat x00 16), w1)
       /\ fst (decompress Triplicate.engine (repeat x00 16) w1)
          = Raise (BrotliError "truncated input")
       /\ fst (decompress Triplicate.engine (repeat x00 16) w1) <> Return [].
Proof.
  split; [exact triplicate_contract|].
  eexists. split; [reflexivity|]. split; [reflexivity|]. discriminate.
Qed.

(** Two bytes that are no stream: the first error is the one raised. *)
Lemma decompress_terminal_error_witness :
  fst (decompress Triplicate.engine [x01; x02] empty_world)
  = Raise (BrotliError "truncated input").
Proof.
  exact (decompress_terminal_error Triplicate.engine [x01; x02]
           "truncated input" empty_world eq_refl).
Defined.

(** C3, as stated, fails: both attempts fail, and the error raised is the
    second attempt's, not the first one's. *)
Lemma decompress_raises_second_error :
  engine_decompress Triplicate.engine seventeen_bytes
  = Raise (BrotliError "corrupt input")
  /\ 16 < len seventeen_bytes
  /\ engine_decompress Triplicate.engine (drop 16 seventeen_bytes)
     = Raise (BrotliError "truncated input")
  /\ fst (decompress Triplicate.engine seventeen_bytes empty_world)
     = Raise (BrotliError "truncated input")
  /\ fst (decompress Triplicate.engine seventeen_bytes empty_world)
     <> Raise (BrotliError "corrupt input").
Proof.
  split; [reflexivity|]. split; [reflexivity|]. split; [reflexivity|].
  split; [reflexivity|]. discriminate.
Qed.



(** Two bytes compressed with and without the legacy header. *)
Lemma compress_output_layout_witness :
  (exists header,
     fst (compress Triplicate.engine [x41; x42] 9 22 0 MODE_GENERIC true
            empty_world)
     = Return (header ++ ([x41; x41; x41; x42; x42; x42] ++ []))
     /\ length header = 16%nat
     /\ int_from_bytes_little header = len [x41; x42])
  /\ fst (compress Triplicate.engine [x41; x42] 9 22 0 MODE_GENERIC false
            empty_world)
     = Return ([x41; x41; x41; x42; x42; x42] ++ []).
Proof.
  apply (compress_output_layout Triplicate.engine [x41; x42] 9 22 0
           MODE_GENERIC tt tt [x41; x41; x41; x42; x42; x42] [] empty_world);
    reflexivity.
Defined.



(** A compression run with no --lgwin on the command line. *)
Lemma unset_lgwin_is_estimated_witness :
  (exists rest,
     calls (snd (main Triplicate.engine
                   [Flag_compress; Positional "in"; Opt_output "out"]
                   payload_world))
     = calls payload_world
       ++ CallCompressor MODE_GENERIC 9 (calc_lgwin (len [x41; x42])) 0 :: rest
     /\ Forall (fun c => c = CallProcess [x41; x42] \/ c = CallFinish) rest)
  /\ (forall given payload w0,
        exists rest,
          calls (snd (compress Triplicate.engine payload 9 given 0
                        MODE_GENERIC false w0))
          = calls w0 ++ CallCompressor MODE_GENERIC 9 given 0 :: rest).
Proof.
  apply (unset_lgwin_is_estimated Triplicate.engine
           [Flag_compress; Positional "in"; Opt_output "out"]
           (sample_options true false None "in" "out")
           "in" [x41; x42] payload_world); try reflexivity.
  - left. reflexivity.
  - intros n [H|[H|[H|[]]]]; discriminate H.
Defined.

(** C8, as stated, fails for [compress] called on its own: with no
    window exponent given it passes the default of its signature, 22,
    where the estimate for the payload is 10. *)
Lemma compress_alone_passes_default_lgwin :
  calls (snd (compress_defaults Triplicate.engine [x41; x42] empty_world))
  = [CallCompressor MODE_GENERIC 9 22 0; CallProcess [x41; x42]; CallFinish]
  /\ calc_lgwin (len [x41; x42]) = 10.
Proof. split; reflexivity. Qed.

(** A payload of 2^128 zero bytes, and a payload of one byte. *)
Lemma header_encoding_overflow_witness :
  fst (compress Triplicate.engine (repeat x00 (Z.to_nat (2 ^ 128)))
         9 22 0 MODE_GENERIC true empty_world)
  = Raise OverflowError
  /\ exists header,
       int_to_bytes (len [x41]) DECODE_HEADER_SIZE little = Return header
       /\ length header = 16%nat
       /\ int_from_bytes_little header = len [x41]
       /\ fst (compress Triplicate.engine [x41] 9 22 0 MODE_GENERIC true
                empty_world)
          = Return (header ++ [x41; x41; x41] ++ []).
Proof.
  split.
  - apply (proj1 (header_encoding_overflow Triplicate.engine
                    (repeat x00 (Z.to_nat (2 ^ 128))) 9 22 0 MODE_GENERIC
                    tt tt
                    (Triplicate.encode (repeat x00 (Z.to_nat (2 ^ 128))))
                    [] empty_world eq_refl eq_refl eq_refl)).
    unfold len. rewrite List.repeat_length, Z2Nat.id; lia.
  - apply (proj2 (header_encoding_overflow Triplicate.engine [x41]
                    9 22 0 MODE_GENERIC tt tt [x41; x41; x41] []
                    empty_world eq_refl eq_refl eq_refl)).
    reflexivity.
Defined.

(** The same run with --gap 1 and with --gap 16. *)
Lemma gap_has_no_effect_witness :
  main Triplicate.engine
    [Flag_compress; Opt_gap 1; Positional "in"; Opt_output "out"]
    payload_world
  = main Triplicate.engine
      [Flag_compress; Opt_gap 16; Positional "in"; Opt_output "out"]
      payload_world.
Proof.
  apply gap_has_no_effect.
  apply List.Forall2_cons; [apply same_arg|].
  apply List.Forall2_cons; [apply other_gap; lia|].
  apply List.Forall2_cons; [apply same_arg|].
  apply List.Forall2_cons; [apply same_arg|].
  apply List.Forall2_nil.
Defined.

(** Two bytes through [compress] and back, no header. *)
Lemma roundtrip_without_header_witness :
  exists w1 w2,
    compress Triplicate.engine [x41; x42] 9 22 0 MODE_GENERIC false empty_world
    = (Return ([x41; x41; x41; x42; x42; x42] ++ []), w1)
    /\ decompress Triplicate.engine ([x41; x41; x41; x42; x42; x42] ++ []) w1
       = (Return [x41; x42], w2).
Proof.
  apply (roundtrip_without_header Triplicate.engine [x41; x42] 9 22 0
           MODE_GENERIC tt tt [x41; x41; x41; x42; x42; x42] [] empty_world);
    reflexivity.
Defined.

(** A run on an input path that names no file. *)
Lemma main_missing_input_witness :
  main Triplicate.engine
    [Flag_compress; Positional "absent"; Opt_output "out"] payload_world
  = (Raise (SystemExit 2 ("File " +:+ "absent" +:+ " not found")),
     payload_world).
Proof.
  apply (main_missing_input Triplicate.engine
           [Flag_compress; Positional "absent"; Opt_output "out"]
           {| opt_compress := true; opt_decompress := false;
              infile := Some "absent"; output := Some "out";
              quality := 9; gap := 1; lgwin := None; lgblock := 0;
              backward := false |}
           "absent" payload_world); reflexivity.
Defined.


(** One byte compressed with and without the flag. *)
Lemma backward_only_adds_header_witness :
  snd (compress Triplicate.engine [x41] 9 22 0 MODE_GENERIC true empty_world)
  = snd (compress Triplicate.engine [x41] 9 22 0 MODE_GENERIC false
           empty_world)
  /\ match fst (compress Triplicate.engine [x41] 9 22 0 MODE_GENERIC false
                  empty_world) with
     | Return body =>
       exists header,
         fst (compress Triplicate.engine [x41] 9 22 0 MODE_GENERIC true
                empty_world)
         = Return (header ++ body)
         /\ length header = 16%nat
         /\ int_from_bytes_little header = len [x41]
     | Raise e =>
       fst (compress Triplicate.engine [x41] 9 22 0 MODE_GENERIC true
              empty_world) = Raise e
     end.
Proof.
  apply (backward_only_adds_header Triplicate.engine [x41] 9 22 0
           MODE_GENERIC empty_world).
  reflexivity.
Defined.

(** The strict engine refuses quality 12 in its constructor. *)
Lemma compress_stops_at_first_failure_witness :
  compress Triplicate.strict_engine [x41] 12 22 0 MODE_GENERIC true empty_world
  = (Raise (BrotliError "invalid parameter"),
     after_calls empty_world [CallCompressor MODE_GENERIC 12 22 0]).
Proof.
  destruct (compress_stops_at_first_failure Triplicate.strict_engine [x41]
              12 22 0 MODE_GENERIC true (BrotliError "invalid parameter")
              empty_world eq_refl)
    as [[_ Hrun] | [(c & Hnew & _) | (c & processed & c' & Hnew & _)]];
    [exact Hrun | discriminate Hnew | discriminate Hnew].
Defined.

(** The same compressed byte behind a right and behind a wrong header. *)
Lemma decompress_ignores_header_witness :
  fst (decompress Triplicate.engine
         ([x01; x00; x00; x00; x00; x00; x00; x00;
           x00; x00; x00; x00; x00; x00; x00; x00] ++ [x41; x41; x41])
         empty_world)
  = engine_decompress Triplicate.engine [x41; x41; x41]
  /\ fst (decompress Triplicate.engine
            (repeat xff 16 ++ [x41; x41; x41]) empty_world)
     = engine_decompress Triplicate.engine [x41; x41; x41].
Proof.
  apply (decompress_ignores_header Triplicate.engine _ _ [x41; x41; x41]
           "corrupt input" "corrupt input" empty_world);
    try reflexivity.
  discriminate.
Defined.

(** A command line with both flags of the exclusive group. *)
Lemma usage_error_ends_run_witness :
  main Triplicate.engine [Flag_compress; Flag_decompress] payload_world
  = (Raise (SystemExit 2
       "argument -d/--decompress: not allowed with argument -e/--compress"),
     payload_world)
  /\ exists status message,
       SystemExit 2
         "argument -d/--decompress: not allowed with argument -e/--compress"
       = SystemExit status message
       /\ (status = 2
           \/ (status = 0
               /\ asks_information [Flag_compress; Flag_decompress])).
Proof.
  apply (usage_error_ends_run Triplicate.engine
           [Flag_compress; Flag_decompress]).
  reflexivity.
Defined.

(** The shortest command line that compresses. *)
Lemma parse_args_valid_witness :
  valid_options (sample_options true false None "in" "out").
Proof.
  apply (parse_args_valid Triplicate.engine
           [Flag_compress; Positional "in"; Opt_output "out"]).
  reflexivity.
Defined.

Lemma parse_args_defaults_witness :
  ((forall n, ~ In (Opt_quality n)
                  [Flag_compress; Positional "in"; Opt_output "out"]) ->
   quality (sample_options true false None "in" "out") = 9)
  /\ ((forall n, ~ In (Opt_gap n)
                     [Flag_compress; Positional "in"; Opt_output "out"]) ->
      gap (sample_options true false None "in" "out") = 1)
  /\ ((forall n, ~ In (Opt_lgblock n)
                     [Flag_compress; Positional "in"; Opt_output "out"]) ->
      lgblock (sample_options true false None "in" "out") = 0)
  /\ (backward (sample_options true false None "in" "out") = true
      <-> In Flag_backward [Flag_compress; Positional "in"; Opt_output "out"]).
Proof.
  apply (parse_args_defaults Triplicate.engine
           [Flag_compress; Positional "in"; Opt_output "out"]).
  reflexivity.
Defined.

(** A compression run with --lgwin 16. *)
Lemma main_passes_given_lgwin_witness :
  exists rest,
    calls (snd (main Triplicate.engine
                  [Flag_compress; Opt_lgwin 16; Positional "in";
                   Opt_output "out"] payload_world))
    = calls payload_world ++ CallCompressor MODE_GENERIC 9 16 0 :: rest
    /\ Forall (fun c => c = CallProcess [x41; x42] \/ c = CallFinish) rest
    /\ 10 <= 16 <= 24.
Proof.
  apply (main_passes_given_lgwin Triplicate.engine
           [Flag_compress; Opt_lgwin 16; Positional "in"; Opt_output "out"]
           (sample_options true false (Some 16) "in" "out")
           "in" [x41; x42] 16 payload_world); reflexivity.
Defined.

(** A decompression run on an input that is no stream. *)
Lemma main_reports_engine_error_witness :
  main Triplicate.engine
    [Flag_decompress; Positional "in"; Opt_output "out"] garbage_world
  = (Raise (SystemExit 1 ("brotli error: " +:+ "truncated input" +:+ ": "
                          +:+ "in")),
     after_calls (output_opened "out" garbage_world) [CallDecompress [x01]]).
Proof.
  apply (main_reports_engine_error Triplicate.engine
           [Flag_decompress; Positional "in"; Opt_output "out"]
           (sample_options false false None "in" "out")
           "in" "out" [x01]); reflexivity.
Defined.


(** The same decompression with and without compression parameters. *)
Lemma decompression_ignores_parameters_witness :
  main Triplicate.engine
    [Flag_decompress; Positional "in"; Opt_output "out"] garbage_world
  = main Triplicate.engine
      [Opt_quality 3; Flag_backward; Flag_decompress; Opt_lgwin 12;
       Positional "in"; Opt_output "out"] garbage_world.
Proof.
  apply (decompression_ignores_parameters Triplicate.engine _ _
           (sample_options false false None "in" "out")
           {| opt_compress := false; opt_decompress := true;
              infile := Some "in"; output := Some "out";
              quality := 3; gap := 1; lgwin := Some 12; lgblock := 0;
              backward := true |});
    reflexivity.
Defined.


